(** * update-forks.js: the incremental blog generator, verified

    A shallow embedding of [scripts/update-forks.js] (the incremental
    generator with its batch cap and model rotation) and of the older
    single-pass variant of the same script, followed by the properties
    the specification states about them.

    Modelling conventions.
    - JavaScript strings are [string]s of 8-bit characters; [toLowerCase]
      folds the letters A-Z, which is what the engine does on the ASCII
      range.  [length] counts characters.
    - [null] and [undefined] are [None]; [x || d] is written with
      [str_or] / [default], following JavaScript truthiness (the empty
      string is falsy, every array and object is truthy).
    - Timestamps ([updated_at], [created_at]) are the millisecond values
      [new Date(...)] yields for them.
    - Module-level mutable state ([modelRateLimits], [currentModelIndex]),
      the file [forks.json] and the trace of outward effects are threaded
      explicitly through the run as a [ProcState].
    - The remote services are oracles collected in a [World]. *)

From Stdlib Require Import ZArith Ascii String Sorted.
From stdpp Require Import base option list gmap strings.

Local Open Scope Z_scope.
Local Open Scope nat_scope.

(** ** JavaScript string primitives *)

Module JS.

(** [s.startsWith(p)] *)
Fixpoint startsWith (s p : string) : bool :=
  match p, s with
  | EmptyString, _ => true
  | String _ _, EmptyString => false
  | String a p', String b s' => if Ascii.eqb a b then startsWith s' p' else false
  end.

(** [s.includes(p)]: [p] occurs in [s] as a contiguous substring. *)
Fixpoint includes (s p : string) : bool :=
  if startsWith s p then true
  else match s with
       | EmptyString => false
       | String _ s' => includes s' p
       end.

Fixpoint map (f : ascii → ascii) (s : string) : string :=
  match s with
  | EmptyString => EmptyString
  | String c s' => String (f c) (map f s')
  end.

Definition lower_char (c : ascii) : ascii :=
  let n := N_of_ascii c in
  if ((65 <=? n) && (n <=? 90))%N then ascii_of_N (n + 32) else c.

(** [s.toLowerCase()] *)
Definition toLowerCase (s : string) : string := map lower_char s.

(** [s.replace(/c/g, d)] for a single character [c] *)
Definition replaceAll (c d : ascii) (s : string) : string :=
  map (fun x => if Ascii.eqb x c then d else x) s.

(** truthiness of a string value that may be [null]/[undefined] *)
Definition truthy (o : option string) : bool :=
  match o with
  | Some (String _ _) => true
  | _ => false
  end.

(** [o || d] on strings *)
Definition str_or (o : option string) (d : string) : string :=
  match o with
  | Some (String c s) => String c s
  | _ => d
  end.

(** the character class [\s] on the ASCII range *)
Definition is_space (c : ascii) : bool :=
  let n := N_of_ascii c in
  ((n =? 32) || ((9 <=? n) && (n <=? 13)))%N.

(** [s.split(/\s+/).length]: one more than the number of maximal runs
    of white space. *)
Fixpoint space_runs (in_run : bool) (s : string) : nat :=
  match s with
  | EmptyString => 0
  | String c s' =>
      if is_space c
      then (if in_run then 0 else 1) + space_runs true s'
      else space_runs false s'
  end.

Definition split_ws_length (s : string) : nat := S (space_runs false s).

Definition nl : string := String (ascii_of_N 10) EmptyString.

End JS.

(** ** Data model *)

Inductive RepoType := fork_t | original_t.

Record Parent := { parent_name : string; parent_url : string; parent_stars : Z }.

(** A repository object as the hosting API returns it, with the fields
    the script adds ([_type]) or merges in ([topics], [parent]). *)
Module Repo.
Record t := {
  id : Z;
  name : string;
  description : option string;
  language : option string;
  stargazers_count : Z;
  forks_count : Z;
  fork : bool;
  archived : bool;
  html_url : string;
  url : string;
  created_at : Z;
  updated_at : Z;
  topics : option (list string);
  parent : option Parent;
  _type : option RepoType
}.
End Repo.

(** A record of the [forks] array of [forks.json]. *)
Module Fork.
Record t := {
  id : Z;
  name : string;
  displayName : string;
  description : string;
  summary : option string;
  url : string;
  language : option string;
  stars : Z;
  forks : Z;
  topics : list string;
  parent : option Parent;
  type : option RepoType;
  image : string;
  forkedAt : string;
  updatedAt : string;
  readTime : nat
}.
End Fork.

(** ** Quality predicate and fallback template *)

Definition badPhrases : list string :=
  [ (* Fallback phrases *)
    "demonstrates thoughtful software design";
    "caught my attention for its practical approach";
    "Worth investigating if you're working with";
    "patterns and implementations that could accelerate";
    (* AI-sounding phrases to regenerate *)
    "In the rapidly evolving";
    "In the world of";
    "In today's landscape";
    "is paramount";
    "aims to streamline";
    "comprehensive solution";
    "It's worth noting";
    "leveraging the power";
    "game-changer";
    "cutting-edge" ].

Definition hasBadPhrase (article : string) : bool :=
  existsb (fun phrase => JS.includes (JS.toLowerCase article) (JS.toLowerCase phrase))
          badPhrases.

(** [isFallbackArticle(article)]: does the article need regeneration? *)
Definition isFallbackArticle (article : option string) : bool :=
  match article with
  | None => true
  | Some a =>
      if negb (JS.truthy (Some a)) || (String.length a <? 400) then true
      else hasBadPhrase a
  end.

Definition displayNameOf (name : string) : string :=
  JS.replaceAll "_" " " (JS.replaceAll "-" " " name).

Definition fallback_long (desc lang : string) : string :=
  desc +:+ JS.nl +:+ JS.nl +:+ "This " +:+ lang +:+
  " project caught my attention for its practical approach to solving real developer problems. The codebase offers patterns worth studying for anyone working in this space.".

Definition fallback_short (name lang : string) : string :=
  name +:+ " is a " +:+ lang +:+
  " project that demonstrates thoughtful software design. While exploring the codebase, I found patterns and implementations that could accelerate similar projects. Worth investigating if you're working with " +:+
  lang +:+ " or interested in clean, maintainable code architecture.".

(** [generateFallbackSummary(repo)] of the incremental generator. *)
Definition generateFallbackSummary (repo : Repo.t) : string :=
  let desc := JS.str_or (Repo.description repo) "" in
  let lang := JS.str_or (Repo.language repo) "various technologies" in
  let name := displayNameOf (Repo.name repo) in
  if 100 <? String.length desc then fallback_long desc lang
  else fallback_short name lang.

(** ** Configuration *)

Record Config := {
  username : string;
  reposToShow : nat;
  batchSize : nat;
  apiDelay : nat;
  endpoint : string;
  available : list string;
  maxTokens : nat
}.

(** The [CONFIG] object of the incremental generator ([temperature], a
    float passed through to the request body, is left out). *)
Definition CONFIG : Config := {|
  username := "moses-y";
  reposToShow := 999;
  batchSize := 50;
  apiDelay := 3000;
  endpoint := "https://models.inference.ai.azure.com/chat/completions";
  available := ["gpt-4o"; "gpt-4o-mini"; "gpt-4.1"];
  maxTokens := 2000
|}.

(** ** The outside world *)

(** Answer of the hosting API to one page request of [fetchRepos]. *)
Inductive PageResponse :=
| PageUnreachable
| PageHttp (status : Z) (repos : list Repo.t).

(** Body of the repository-detail endpoint, as far as the script reads it. *)
Record RepoData := {
  data_topics : option (list string);
  data_parent : option Parent
}.

Record TreeEntry := { entry_type : string; entry_path : string }.

(** What one call to the completion endpoint is made of: the model name
    and the values the prompt is built from. *)
Record Request := {
  req_model : string;
  req_repo : Repo.t;
  req_readme : option string;
  req_fileTree : list string
}.

(** Answer of the completion endpoint: [fetch] rejects, or a response
    with a status, the text of an error body, and the value of
    [data.choices?.[0]?.message?.content?.trim()] of a success body
    ([None] also stands for a body that is not JSON: both end in [null]).
    Reading the body of a response that has arrived is taken to succeed. *)
Inductive Response :=
| Unreachable
| Http (status : Z) (errorText : string) (content : option string).

Definition response_ok (status : Z) : bool :=
  ((200 <=? status) && (status <=? 299))%Z.

Record Progress := {
  aiGenerated : nat;
  fallback : nat;
  pending : nat;
  complete : bool
}.

Record FeedDocument := {
  lastUpdated : string;
  generatedWith : string;
  totalRepos : nat;
  progress : Progress;
  forks : list Fork.t
}.

(** The file [forks.json]: missing, not parseable as JSON, or a parsed
    document (a document without a [forks] array reads as one with [[]]). *)
Inductive File :=
| NoFile
| Unparsable
| Json (data : FeedDocument).

Record World := {
  GITHUB_TOKEN : option string;
  (** answers of the repository list endpoint to page 1, 2, ...; a request
      past the end of the list gets an empty page *)
  listPages : list PageResponse;
  (** [None]: the request failed or was not answered with success *)
  repoDetails : Repo.t → option RepoData;
  readmeText : Repo.t → option string;
  gitTree : Repo.t → option (list TreeEntry);
  (** answer to the n-th completion call of the run (from 0) *)
  completion : nat → Request → Response;
  (** [toLocaleDateString('en-US', ...)] of a timestamp, and the value
      [new Date(s)] has for such a string *)
  formatDate : Z → string;
  dateValue : string → Z;
  (** [new Date().toISOString()] at the end of the run *)
  nowISO : string
}.

(** ** Process state and effects *)

Inductive Event :=
| CompletionCall (req : Request)
| FileWrite (doc : FeedDocument).

Record ProcState := {
  forks_json : File;
  modelRateLimits : gmap string bool;
  currentModelIndex : nat;
  trace : list Event
}.

(** A fresh process started next to the given [forks.json]. *)
Definition start (file : File) : ProcState := {|
  forks_json := file;
  modelRateLimits := ∅;
  currentModelIndex := 0;
  trace := []
|}.

Definition set_currentModelIndex (i : nat) (st : ProcState) : ProcState := {|
  forks_json := forks_json st;
  modelRateLimits := modelRateLimits st;
  currentModelIndex := i;
  trace := trace st
|}.

(** [modelRateLimits[model] = true] *)
Definition markRateLimited (model : string) (st : ProcState) : ProcState := {|
  forks_json := forks_json st;
  modelRateLimits := <[model := true]> (modelRateLimits st);
  currentModelIndex := currentModelIndex st;
  trace := trace st
|}.

Definition emit (e : Event) (st : ProcState) : ProcState := {|
  forks_json := forks_json st;
  modelRateLimits := modelRateLimits st;
  currentModelIndex := currentModelIndex st;
  trace := trace st ++ [e]
|}.

(** [fs.writeFileSync('forks.json', JSON.stringify(output, null, 2))] *)
Definition writeFileSync (output : FeedDocument) (st : ProcState) : ProcState := {|
  forks_json := Json output;
  modelRateLimits := modelRateLimits st;
  currentModelIndex := currentModelIndex st;
  trace := trace st ++ [FileWrite output]
|}.

Definition is_completion (e : Event) : bool :=
  match e with CompletionCall _ => true | FileWrite _ => false end.

Definition is_write (e : Event) : bool :=
  match e with FileWrite _ => true | CompletionCall _ => false end.

Definition completionCalls (st : ProcState) : nat :=
  length (filter (fun e => is_completion e = true) (trace st)).

Definition fileWrites (st : ProcState) : nat :=
  length (filter (fun e => is_write e = true) (trace st)).

(** ** Model rotation *)

(** [!modelRateLimits[model]] is false *)
Definition rateLimited (limits : gmap string bool) (model : string) : bool :=
  match limits !! model with
  | Some true => true
  | _ => false
  end.

(** The [for] loop of [getNextModel] from index [i] on, with [steps]
    iterations left; returns the model and the new [currentModelIndex]. *)
Fixpoint getNextModel_loop (models : list string) (limits : gmap string bool)
    (cur i steps : nat) : option (string * nat) :=
  match steps with
  | 0 => None
  | S steps' =>
      match models !! ((cur + i) mod length models) with
      | Some model =>
          if negb (rateLimited limits model)
          then Some (model, (cur + i + 1) mod length models)
          else getNextModel_loop models limits cur (S i) steps'
      | None => None (* the index is reduced modulo the length: not reached *)
      end
  end.

Definition getNextModel (cfg : Config) (st : ProcState) : option string * ProcState :=
  match getNextModel_loop (available cfg) (modelRateLimits st)
          (currentModelIndex st) 0 (length (available cfg)) with
  | Some (model, next) => (Some model, set_currentModelIndex next st)
  | None => (None, st) (* All models rate limited *)
  end.

(** ** Content generator *)

(** [generateBlogArticle(repo, readme, fileTree)].  The recursion on a
    429 answer is followed for at most [depth] nested calls; [None] means
    that this budget did not suffice. *)
Fixpoint generateBlogArticle_rec (depth : nat) (cfg : Config) (w : World)
    (repo : Repo.t) (readme : option string) (fileTree : list string)
    (st : ProcState) : option (option string * ProcState) :=
  match depth with
  | 0 => None
  | S depth' =>
      if negb (JS.truthy (GITHUB_TOKEN w))
      then Some (Some (generateFallbackSummary repo), st)
      else
        match getNextModel cfg st with
        | (None, st1) => Some (None, st1)
        | (Some model, st1) =>
            let req := {| req_model := model; req_repo := repo;
                          req_readme := readme; req_fileTree := fileTree |} in
            let st2 := emit (CompletionCall req) st1 in
            match completion w (completionCalls st1) req with
            | Unreachable => Some (None, st2) (* catch *)
            | Http status errorText content =>
                if negb (response_ok status) then
                  if (status =? 429)%Z
                  then generateBlogArticle_rec depth' cfg w repo readme fileTree
                         (markRateLimited model st2)
                  else Some (None, st2)
                else
                  match content with
                  | Some article =>
                      if JS.truthy (Some article) && (400 <? String.length article)
                      then Some (Some article, st2)
                      else Some (None, st2)
                  | None => Some (None, st2)
                  end
            end
        end
  end.

(** One top-level call: a budget of one call per configured model plus
    the last one, which finds every model marked.  The budget is never
    exhausted ([generateBlogArticle_spec] below), so the second branch is
    not taken. *)
Definition generateBlogArticle (cfg : Config) (w : World)
    (repo : Repo.t) (readme : option string) (fileTree : list string)
    (st : ProcState) : option string * ProcState :=
  match generateBlogArticle_rec (S (length (available cfg))) cfg w repo readme fileTree st with
  | Some r => r
  | None => (None, st)
  end.

(** ** Repository lister *)

Inductive Error :=
| GitHubAPIError (status : Z)   (* [new Error(`GitHub API error: ${status}`)] *)
| FetchFailed.                  (* [fetch] rejected *)

(** [Array.prototype.sort(cmp)]: a stable sort; an element is placed
    before the first later element it does not have to follow. *)
Fixpoint sort_insert {A} (cmp : A → A → Z) (x : A) (l : list A) : list A :=
  match l with
  | [] => [x]
  | y :: l' => if (cmp x y <=? 0)%Z then x :: y :: l' else y :: sort_insert cmp x l'
  end.

Definition sort {A} (cmp : A → A → Z) (l : list A) : list A :=
  foldr (sort_insert cmp) [] l.

(** The [while (true)] loop of [fetchRepos] over the pages still to come. *)
Fixpoint fetchPages (pages : list PageResponse) (allRepos : list Repo.t)
    : Error + list Repo.t :=
  match pages with
  | [] => inr allRepos (* empty page: break *)
  | PageUnreachable :: _ => inl FetchFailed
  | PageHttp status repos :: rest =>
      if negb (response_ok status) then inl (GitHubAPIError status)
      else if length repos =? 0 then inr allRepos
      else
        let allRepos := allRepos ++ repos in
        if length repos <? 100 then inr allRepos
        else fetchPages rest allRepos
  end.

(** [r._type = r.fork ? 'fork' : 'original'] *)
Definition tagType (r : Repo.t) : Repo.t := {|
  Repo.id := Repo.id r;
  Repo.name := Repo.name r;
  Repo.description := Repo.description r;
  Repo.language := Repo.language r;
  Repo.stargazers_count := Repo.stargazers_count r;
  Repo.forks_count := Repo.forks_count r;
  Repo.fork := Repo.fork r;
  Repo.archived := Repo.archived r;
  Repo.html_url := Repo.html_url r;
  Repo.url := Repo.url r;
  Repo.created_at := Repo.created_at r;
  Repo.updated_at := Repo.updated_at r;
  Repo.topics := Repo.topics r;
  Repo.parent := Repo.parent r;
  Repo._type := Some (if Repo.fork r then fork_t else original_t)
|}.

Definition keepRepo (r : Repo.t) : bool :=
  negb (JS.includes (Repo.name r) ".github.io") && negb (Repo.archived r).

Definition byUpdatedDesc (a b : Repo.t) : Z :=
  (Repo.updated_at b - Repo.updated_at a)%Z.

(** What [fetchRepos] does with the concatenated pages. *)
Definition selectRepos (allRepos : list Repo.t) : list Repo.t :=
  sort byUpdatedDesc (List.filter keepRepo (List.map tagType allRepos)).

Definition fetchRepos (w : World) : Error + list Repo.t :=
  match fetchPages (listPages w) [] with
  | inl err => inl err
  | inr allRepos => inr (selectRepos allRepos)
  end.

(** ** Repository detail fetcher *)

Definition fetchRepoDetails (w : World) (repo : Repo.t) : Repo.t :=
  match repoDetails w repo with
  | Some data => {|
      Repo.id := Repo.id repo;
      Repo.name := Repo.name repo;
      Repo.description := Repo.description repo;
      Repo.language := Repo.language repo;
      Repo.stargazers_count := Repo.stargazers_count repo;
      Repo.forks_count := Repo.forks_count repo;
      Repo.fork := Repo.fork repo;
      Repo.archived := Repo.archived repo;
      Repo.html_url := Repo.html_url repo;
      Repo.url := Repo.url repo;
      Repo.created_at := Repo.created_at repo;
      Repo.updated_at := Repo.updated_at repo;
      Repo.topics := Some (default [] (data_topics data));
      Repo.parent := data_parent data;
      Repo._type := Repo._type repo
    |}
  | None => repo
  end.

Definition fetchReadme (w : World) (repo : Repo.t) : option string :=
  match readmeText w repo with
  | Some readme => Some (String.substring 0 4000 readme)
  | None => None
  end.

Definition fetchRepoTree (w : World) (repo : Repo.t) : list string :=
  match gitTree w repo with
  | Some tree =>
      take 30 (List.map entry_path
                 (List.filter (fun f => String.eqb (entry_type f) "blob") tree))
  | None => []
  end.

(** ** Small helpers of the feed writer *)

Definition unsplashPhotos : list string :=
  [ "1461749280684-dccba630e2f6"; "1555066931-4365d14bab8c"; "1504639725590-34d0984388bd";
    "1526374965328-7f61d4dc18c5"; "1518770660439-4636190af475"; "1451187580459-43490279c0fa";
    "1550751827-4bd374c3f58b"; "1558494949-ef010cbdcc31"; "1485827404703-89b55fcc595e";
    "1531482615713-2afd69097998"; "1542831371-29b0f74f9713"; "1607799279861-4dd421887fb3" ].

Definition getRandomUnsplashUrl (index : nat) : string :=
  let photoId := default "" (unsplashPhotos !! (index mod length unsplashPhotos)) in
  "https://images.unsplash.com/photo-" +:+ photoId +:+ "?w=800&h=400&fit=crop&q=80".

(** [Math.max(2, Math.ceil(words / 200))] *)
Definition estimateReadTime (content : string) : nat :=
  let words := JS.split_ws_length content in
  Nat.max 2 ((words + 199) / 200).

(** ** Batch state tracker *)

(** [loadExistingArticles()]: the records of the persisted feed by id,
    a later record replacing an earlier one with the same id. *)
Definition loadExistingArticles (file : File) : gmap Z Fork.t :=
  match file with
  | Json data =>
      foldl (fun (existing : gmap Z Fork.t) fork => <[Fork.id fork := fork]> existing)
            ∅ (forks data)
  | _ => ∅
  end.

(** The loop that separates [hasArticle] from [needsGeneration]. *)
Fixpoint classify (existingArticles : gmap Z Fork.t) (recentRepos : list Repo.t)
    : list (Repo.t * Fork.t) * list Repo.t :=
  match recentRepos with
  | [] => ([], [])
  | repo :: rest =>
      let '(hasArticle, needsGeneration) := classify existingArticles rest in
      match existingArticles !! Repo.id repo with
      | Some existing =>
          if negb (isFallbackArticle (Fork.summary existing))
          then ((repo, existing) :: hasArticle, needsGeneration)
          else (hasArticle, repo :: needsGeneration)
      | None => (hasArticle, repo :: needsGeneration)
      end
  end.

Record Selection := {
  recentRepos : list Repo.t;
  hasArticle : list (Repo.t * Fork.t);
  needsGeneration : list Repo.t;
  batchToProcess : list Repo.t
}.

(** Lines "Separate repos" to "Batch processing" of [main]. *)
Definition select (cfg : Config) (existingArticles : gmap Z Fork.t)
    (repos : list Repo.t) : Selection :=
  let recent := take (reposToShow cfg) repos in
  let '(has, needs) := classify existingArticles recent in
  {| recentRepos := recent;
     hasArticle := has;
     needsGeneration := needs;
     batchToProcess := take (batchSize cfg) needs |}.

(** ** Feed writer *)

(** The record pushed for a repository whose article is kept:
    [{...existing, description: ..., ..., updatedAt: ...}]. *)
Definition preserve (w : World) (entry : Repo.t * Fork.t) : Fork.t :=
  let '(repo, existing) := entry in
  let detailed := fetchRepoDetails w repo in
  {| Fork.id := Fork.id existing;
     Fork.name := Fork.name existing;
     Fork.displayName := Fork.displayName existing;
     Fork.description := JS.str_or (Repo.description repo) (Fork.description existing);
     Fork.summary := Fork.summary existing;
     Fork.url := Fork.url existing;
     Fork.language := Repo.language repo;
     Fork.stars := Repo.stargazers_count repo;
     Fork.forks := Repo.forks_count repo;
     Fork.topics := default (Fork.topics existing) (Repo.topics detailed);
     Fork.parent := match Repo.parent detailed with
                    | Some p => Some p
                    | None => Fork.parent existing
                    end;
     Fork.type := Repo._type repo;
     Fork.image := Fork.image existing;
     Fork.forkedAt := Fork.forkedAt existing;
     Fork.updatedAt := formatDate w (Repo.updated_at repo);
     Fork.readTime := Fork.readTime existing |}.

(** The record pushed for the [i]-th repository of the batch. *)
Definition generated (w : World) (i : nat) (repo detailed : Repo.t)
    (finalArticle : string) : Fork.t :=
  {| Fork.id := Repo.id repo;
     Fork.name := Repo.name repo;
     Fork.displayName := displayNameOf (Repo.name repo);
     Fork.description := JS.str_or (Repo.description repo) "No description available";
     Fork.summary := Some finalArticle;
     Fork.url := Repo.html_url repo;
     Fork.language := Repo.language repo;
     Fork.stars := Repo.stargazers_count repo;
     Fork.forks := Repo.forks_count repo;
     Fork.topics := default [] (Repo.topics detailed);
     Fork.parent := Repo.parent detailed;
     Fork.type := Some (default fork_t (Repo._type repo));
     Fork.image := getRandomUnsplashUrl i;
     Fork.forkedAt := formatDate w (Repo.created_at repo);
     Fork.updatedAt := formatDate w (Repo.updated_at repo);
     Fork.readTime := estimateReadTime finalArticle |}.

(** Local variables of the generation loop. *)
Record Loop := {
  acc_forks : list Fork.t;
  aiCallCount : nat;
  consecutiveRateLimits : nat;
  aiSuccessCount : nat;
  rateLimitHit : bool
}.

(** "Try to generate AI article (skip if rate limited)" *)
Definition tryGenerate (cfg : Config) (w : World) (detailed : Repo.t)
    (readme : option string) (fileTree : list string) (ls : Loop) (st : ProcState)
    : option string * Loop * ProcState :=
  if rateLimitHit ls then (None, ls, st)
  else
    let '(article, st1) := generateBlogArticle cfg w detailed readme fileTree st in
    if JS.truthy article then
      (article,
       {| acc_forks := acc_forks ls;
          aiCallCount := S (aiCallCount ls);
          consecutiveRateLimits := 0;
          aiSuccessCount := S (aiSuccessCount ls);
          rateLimitHit := rateLimitHit ls |},
       st1)
    else
      let consecutive := S (consecutiveRateLimits ls) in
      (article,
       {| acc_forks := acc_forks ls;
          aiCallCount := S (aiCallCount ls);
          consecutiveRateLimits := consecutive;
          aiSuccessCount := aiSuccessCount ls;
          (* Stop trying AI after 3 consecutive failures *)
          rateLimitHit := if 3 <=? consecutive then true else rateLimitHit ls |},
       st1).

Definition push (f : Fork.t) (ls : Loop) : Loop :=
  {| acc_forks := acc_forks ls ++ [f];
     aiCallCount := aiCallCount ls;
     consecutiveRateLimits := consecutiveRateLimits ls;
     aiSuccessCount := aiSuccessCount ls;
     rateLimitHit := rateLimitHit ls |}.

(** The [for] loop over [batchToProcess], from index [i] on. *)
Fixpoint processBatch (cfg : Config) (w : World) (i : nat) (batch : list Repo.t)
    (ls : Loop) (st : ProcState) : Loop * ProcState :=
  match batch with
  | [] => (ls, st)
  | repo :: rest =>
      let detailed := fetchRepoDetails w repo in
      let readme := fetchReadme w repo in
      let fileTree := fetchRepoTree w repo in
      let '(article, ls1, st1) := tryGenerate cfg w detailed readme fileTree ls st in
      let finalArticle := JS.str_or article (generateFallbackSummary repo) in
      processBatch cfg w (S i) rest (push (generated w i repo detailed finalArticle) ls1) st1
  end.

Definition byUpdatedAtDesc (w : World) (a b : Fork.t) : Z :=
  (dateValue w (Fork.updatedAt b) - dateValue w (Fork.updatedAt a))%Z.

Definition isAIArticle (f : Fork.t) : bool := negb (isFallbackArticle (Fork.summary f)).

(** The [output] object of [main]. *)
Definition makeOutput (w : World) (sel : Selection) (forks : list Fork.t) : FeedDocument :=
  let forks := sort (byUpdatedAtDesc w) forks in
  let aiArticleCount := length (List.filter isAIArticle forks) in
  let fallbackCount := length forks - aiArticleCount in
  let pendingCount := length (needsGeneration sel) - length (batchToProcess sel) in
  {| lastUpdated := nowISO w;
     generatedWith := "GitHub Models API (GPT-4o, GPT-4o-mini, GPT-4.1)";
     totalRepos := length forks;
     progress := {| aiGenerated := aiArticleCount;
                    fallback := fallbackCount;
                    pending := pendingCount;
                    complete := pendingCount =? 0 |};
     forks := forks |}.

(** The loop variables when the generation loop is entered: [forks]
    holds the records of the repositories whose article is kept. *)
Definition preserved (w : World) (hasArticle : list (Repo.t * Fork.t)) : Loop :=
  {| acc_forks := List.map (preserve w) hasArticle;
     aiCallCount := 0;
     consecutiveRateLimits := 0;
     aiSuccessCount := 0;
     rateLimitHit := false |}.

(** ** The run *)

Inductive Outcome :=
| Rejected (err : Error)   (* the promise of [main()] rejects *)
| Resolved.

Definition main (cfg : Config) (w : World) (st : ProcState) : Outcome * ProcState :=
  let existingArticles := loadExistingArticles (forks_json st) in
  match fetchRepos w with
  | inl err => (Rejected err, st)
  | inr repos =>
      let sel := select cfg existingArticles repos in
      let ls0 := preserved w (hasArticle sel) in
      let '(ls, st1) :=
        if 0 <? length (batchToProcess sel)
        then processBatch cfg w 0 (batchToProcess sel) ls0 st
        else (ls0, st) in
      let output := makeOutput w sel (acc_forks ls) in
      (Resolved, writeFileSync output st1)
  end.

(** What the operating system sees of one invocation of the script:
    [main().catch(err => { console.error('Error:', err); process.exit(1); })]. *)
Record Exit := {
  exitCode : Z;
  stderr : list Error;
  final : ProcState
}.

Definition runScript (cfg : Config) (w : World) (file : File) : Exit :=
  match main cfg w (start file) with
  | (Rejected err, st) => {| exitCode := 1; stderr := [err]; final := st |}
  | (Resolved, st) => {| exitCode := 0; stderr := []; final := st |}
  end.

(** ** The older single-pass variant of the script

    Its fallback generator returns a long enough description as it is and
    otherwise one of three templates, chosen by
    [Math.floor(Math.random() * templates.length)].  The copies of this
    variant differ in the account name, the endpoint and the encoding of
    the dash in the third template only. *)

Module Legacy.

Inductive Choice := first_template | second_template | third_template.

Definition templates (name lang : string) : list string :=
  [ "A compelling " +:+ lang +:+ " project that explores " +:+ name +:+
    ". Worth diving into for developers interested in modern software patterns and clean implementations.";
    name +:+ " offers an interesting approach built with " +:+ lang +:+
    ". The codebase demonstrates practical solutions that could accelerate your next project.";
    "Exploring " +:+ name +:+ " — a " +:+ lang +:+
    " repository that caught my attention. It showcases techniques worth understanding for any serious developer." ].

Definition index (c : Choice) : nat :=
  match c with first_template => 0 | second_template => 1 | third_template => 2 end.

Definition generateFallbackSummary (random : Choice) (repo : Repo.t) : string :=
  let desc := JS.str_or (Repo.description repo) "" in
  let lang := JS.str_or (Repo.language repo) "various technologies" in
  let name := displayNameOf (Repo.name repo) in
  if 50 <? String.length desc then desc
  else default "" (templates name lang !! index random).

(** [generateBlogSummary(repo)]: one completion call with the single
    configured model, the fallback on every failure. *)
Definition generateBlogSummary (w : World) (random : Choice) (repo : Repo.t)
    (st : ProcState) : string * ProcState :=
  if negb (JS.truthy (GITHUB_TOKEN w))
  then (generateFallbackSummary random repo, st)
  else
    let req := {| req_model := "gpt-4o-mini"; req_repo := repo;
                  req_readme := None; req_fileTree := [] |} in
    let st1 := emit (CompletionCall req) st in
    match completion w (completionCalls st) req with
    | Unreachable => (generateFallbackSummary random repo, st1)
    | Http status _ content =>
        if negb (response_ok status) then (generateFallbackSummary random repo, st1)
        else
          match content with
          | Some summary =>
              if JS.truthy (Some summary) && (20 <? String.length summary)
              then (summary, st1)
              else (generateFallbackSummary random repo, st1)
          | None => (generateFallbackSummary random repo, st1)
          end
    end.

End Legacy.

(** ** Derived notions used in the statements *)

(** The quality check as [isFallbackArticle] decides it: the article is
    a non-empty string of at least 400 characters without a denylist
    phrase. *)
Definition acceptable (article : option string) : bool :=
  match article with
  | Some a => (400 <=? String.length a) && negb (hasBadPhrase a)
  | None => false
  end.

(** The repository has a persisted record whose article passes. *)
Definition hasGoodArticle (existingArticles : gmap Z Fork.t) (repo : Repo.t) : bool :=
  match existingArticles !! Repo.id repo with
  | Some existing => acceptable (Fork.summary existing)
  | None => false
  end.

(** Models of the list that [getNextModel] can still return. *)
Definition unmarked (cfg : Config) (st : ProcState) : nat :=
  length (List.filter (fun m => negb (rateLimited (modelRateLimits st) m)) (available cfg)).

(** The document a process leaves in [forks.json]. *)
Definition documentOf (e : Exit) : option FeedDocument :=
  match forks_json (final e) with
  | Json doc => Some doc
  | _ => None
  end.

(** The records the generation loop pushes when every article is the
    fallback text. *)
Definition fallbackRecords (w : World) (batch : list Repo.t) : list Fork.t :=
  imap (fun i repo =>
          generated w i repo (fetchRepoDetails w repo) (generateFallbackSummary repo))
       batch.


(** [st'] is reached from [st] by steps of the content generator: the
    file is untouched, the trace grows by completion calls only, and every
    mark on a model is kept. *)
Definition extends (st st' : ProcState) : Prop :=
  forks_json st' = forks_json st
  ∧ (∃ calls, trace st' = trace st ++ calls
              ∧ Forall (fun e => is_completion e = true) calls)
  ∧ (∀ m, rateLimited (modelRateLimits st) m = true →
          rateLimited (modelRateLimits st') m = true).

(** The specification's wording of two statements, kept apart from the
    code's behaviour for comparison. *)
Module Claimed.

(** "its length exceeds the minimum threshold (400), and it contains
    none of the fixed denylist" *)
Definition acceptable (article : option string) : bool :=
  match article with
  | Some a => (400 <? String.length a) && negb (hasBadPhrase a)
  | None => false
  end.

(** "a second run under the same unreachable-remote conditions
    processes the remaining N_needing - K repositories and reports
    pending = 0", for the run [first] and the run [second] that follows
    it on the same repository list. *)
Definition second_run_finishes (first second : Selection)
    (doc1 doc2 : FeedDocument) : Prop :=
  batchToProcess second = drop (length (batchToProcess first)) (needsGeneration first)
  ∧ pending (progress doc2) = 0.

End Claimed.

(** ** Sample inputs *)

Definition sampleRepo (n : nat) : Repo.t := {|
  Repo.id := Z.of_nat n;
  Repo.name := "sample-repo";
  Repo.description := None;
  Repo.language := Some "OCaml";
  Repo.stargazers_count := 7;
  Repo.forks_count := 0;
  Repo.fork := Nat.even n;
  Repo.archived := false;
  Repo.html_url := "https://github.com/moses-y/sample-repo";
  Repo.url := "https://api.github.com/repos/moses-y/sample-repo";
  Repo.created_at := 0;
  Repo.updated_at := 100000 - Z.of_nat n;
  Repo.topics := None;
  Repo.parent := None;
  Repo._type := None
|}.

Definition sampleRepos (k : nat) : list Repo.t := List.map sampleRepo (seq 1 k).

(** The site's own repository and an archived one. *)
Definition siteRepo : Repo.t := {|
  Repo.id := 900;
  Repo.name := "moses-y.github.io";
  Repo.description := None;
  Repo.language := Some "HTML";
  Repo.stargazers_count := 0;
  Repo.forks_count := 0;
  Repo.fork := false;
  Repo.archived := false;
  Repo.html_url := "https://github.com/moses-y/moses-y.github.io";
  Repo.url := "https://api.github.com/repos/moses-y/moses-y.github.io";
  Repo.created_at := 0;
  Repo.updated_at := 200000;
  Repo.topics := None;
  Repo.parent := None;
  Repo._type := None
|}.

Definition archivedRepo : Repo.t := {|
  Repo.id := 901;
  Repo.name := "old-project";
  Repo.description := None;
  Repo.language := None;
  Repo.stargazers_count := 0;
  Repo.forks_count := 0;
  Repo.fork := true;
  Repo.archived := true;
  Repo.html_url := "https://github.com/moses-y/old-project";
  Repo.url := "https://api.github.com/repos/moses-y/old-project";
  Repo.created_at := 0;
  Repo.updated_at := 300000;
  Repo.topics := None;
  Repo.parent := None;
  Repo._type := None
|}.

Definition mixedRepos : list Repo.t :=
  [sampleRepo 2; siteRepo; archivedRepo; sampleRepo 1].

(** A world whose hosting API serves [repos] on one page and knows
    nothing else about them. *)
Definition sampleWorld (token : option string) (repos : list Repo.t)
    (answer : nat → Request → Response) : World := {|
  GITHUB_TOKEN := token;
  listPages := [PageHttp 200 repos];
  repoDetails := fun _ => None;
  readmeText := fun _ => None;
  gitTree := fun _ => None;
  completion := answer;
  formatDate := fun _ => "January 1, 1970";
  dateValue := fun _ => 0%Z;
  nowISO := "1970-01-01T00:00:00.000Z"
|}.

Definition unreachable : nat → Request → Response := fun _ _ => Unreachable.

(** A world whose hosting API refuses the listing. *)
Definition forbiddenWorld : World := {|
  GITHUB_TOKEN := None;
  listPages := [PageHttp 403 []];
  repoDetails := fun _ => None;
  readmeText := fun _ => None;
  gitTree := fun _ => None;
  completion := unreachable;
  formatDate := fun _ => "January 1, 1970";
  dateValue := fun _ => 0%Z;
  nowISO := "1970-01-01T00:00:00.000Z"
|}.

Definition throttled : nat → Request → Response :=
  fun _ _ => Http 429 "Too Many Requests" None.

(** One repository, a token, and a completion endpoint that answers
    every request with 429. *)
Definition throttledWorld : World :=
  sampleWorld (Some "token") (sampleRepos 1) throttled.

(** The first request a fresh process sends for [sampleRepo 1]. *)
Definition firstRequest : Request :=
  {| req_model := "gpt-4o"; req_repo := sampleRepo 1;
     req_readme := None; req_fileTree := [] |}.

(** 400 characters, none of them part of a denylist phrase. *)
Definition article400 : string := string_of_list_ascii (repeat "a"%char 400).

Definition sampleRecord (n : nat) (summary : option string) : Fork.t := {|
  Fork.id := Z.of_nat n;
  Fork.name := "sample-repo";
  Fork.displayName := "sample repo";
  Fork.description := "No description available";
  Fork.summary := summary;
  Fork.url := "https://github.com/moses-y/sample-repo";
  Fork.language := Some "OCaml";
  Fork.stars := 3;
  Fork.forks := 0;
  Fork.topics := [];
  Fork.parent := None;
  Fork.type := Some original_t;
  Fork.image := getRandomUnsplashUrl 0;
  Fork.forkedAt := "January 1, 1970";
  Fork.updatedAt := "January 1, 1970";
  Fork.readTime := 2
|}.

Definition sampleFile (records : list Fork.t) : File :=
  Json {| lastUpdated := "1970-01-01T00:00:00.000Z";
          generatedWith := "GitHub Models API";
          totalRepos := length records;
          progress := {| aiGenerated := 0; fallback := 0; pending := 0; complete := true |};
          forks := records |}.

(** 401 characters: longer than the threshold. *)
Definition article401 : string := string_of_list_ascii (repeat "a"%char 401).

(** Two repositories, the first with a good article in the feed, and an
    unreachable completion endpoint. *)
Definition keptWorld : World :=
  sampleWorld (Some "token") (sampleRepos 2) unreachable.

Definition keptFile : File := sampleFile [sampleRecord 1 (Some article401)].

(** 51 repositories, no persisted feed, an unreachable completion
    endpoint: two runs in a row under the cap of 50. *)
Definition offlineWorld : World :=
  sampleWorld (Some "token") (sampleRepos 51) unreachable.

Definition firstRun : Exit := runScript CONFIG offlineWorld NoFile.

Definition secondRun : Exit :=
  runScript CONFIG offlineWorld (forks_json (final firstRun)).

Definition firstSelection : Selection :=
  select CONFIG (loadExistingArticles NoFile) (selectRepos (sampleRepos 51)).

Definition secondSelection : Selection :=
  select CONFIG (loadExistingArticles (forks_json (final firstRun)))
         (selectRepos (sampleRepos 51)).

(** ** Further notions used in the statements *)

(** A page that makes [fetchRepos] ask for the next one, and the
    repositories a page carries. *)
Definition fullPage (p : PageResponse) : bool :=
  match p with
  | PageHttp status repos => response_ok status && (100 <=? length repos)
  | PageUnreachable => false
  end.

Definition pageRepos (p : PageResponse) : list Repo.t :=
  match p with
  | PageHttp _ repos => repos
  | PageUnreachable => []
  end.

(** [CONFIG.models.available[k % CONFIG.models.available.length]] *)
Definition modelAt (cfg : Config) (k : nat) : option string :=
  available cfg !! (k mod length (available cfg)).

(** The last record of a feed with the given id. *)
Definition lastWithId (k : Z) (records : list Fork.t) : option Fork.t :=
  last (List.filter (fun f => (Fork.id f =? k)%Z) records).

(** The repository has the id of a member of the batch. *)
Definition inBatch (batch : list Repo.t) (r : Repo.t) : bool :=
  bool_decide (Repo.id r ∈ List.map Repo.id batch).

(** The completion endpoint answers every request with a success whose
    content passes the quality check. *)
Definition answersWell (w : World) : Prop :=
  ∀ n req, ∃ status text article,
    completion w n req = Http status text (Some article)
    ∧ response_ok status = true
    ∧ 400 < String.length article
    ∧ hasBadPhrase article = false.

(** ** The single-pass script

    [main] of the older variant in [scripts/update-forks.js]: one request
    for the repository list, the nine most recently updated repositories,
    a summary for each, one write. *)

Module LegacyMain.

Definition reposToShow : nat := 9.

(** The document of the single-pass script has no progress object. *)
Record Document := {
  lastUpdated : string;
  generatedWith : string;
  forks : list Fork.t
}.

(** [fetchRepos()]: the first page only, the two filters one after the
    other. *)
Definition fetchRepos (w : World) : Error + list Repo.t :=
  match head (listPages w) with
  | Some PageUnreachable => inl FetchFailed
  | Some (PageHttp status repos) =>
      if negb (response_ok status) then inl (GitHubAPIError status)
      else
        inr (sort byUpdatedDesc
               (List.filter (fun r => negb (Repo.archived r))
                  (List.filter (fun r => negb (JS.includes (Repo.name r) ".github.io"))
                     (List.map tagType repos))))
  | None => inr []
  end.

(** [(description || '').split(' ').length] *)
Fixpoint split_space_length (s : string) : nat :=
  match s with
  | EmptyString => 1
  | String c s' => (if Ascii.eqb c " " then 1 else 0) + split_space_length s'
  end.

Definition estimateReadTime (description : string) : nat :=
  Nat.max 2 ((split_space_length description + 199) / 200).

(** The record pushed for the [i]-th repository. *)
Definition record (w : World) (i : nat) (repo detailed : Repo.t) (summary : string)
    : Fork.t :=
  {| Fork.id := Repo.id repo;
     Fork.name := Repo.name repo;
     Fork.displayName := displayNameOf (Repo.name repo);
     Fork.description := JS.str_or (Repo.description repo) "No description available";
     Fork.summary := Some summary;
     Fork.url := Repo.html_url repo;
     Fork.language := Repo.language repo;
     Fork.stars := Repo.stargazers_count repo;
     Fork.forks := Repo.forks_count repo;
     Fork.topics := default [] (Repo.topics detailed);
     Fork.parent := Repo.parent detailed;
     Fork.type := Some (default fork_t (Repo._type repo));
     Fork.image := getRandomUnsplashUrl i;
     Fork.forkedAt := formatDate w (Repo.created_at repo);
     Fork.updatedAt := formatDate w (Repo.updated_at repo);
     Fork.readTime := estimateReadTime summary |}.

(** The [for] loop of [main] from index [i] on; [random i] is the
    template choice available to the [i]-th summary. *)
Fixpoint summarize (w : World) (random : nat → Legacy.Choice) (i : nat)
    (recentForks : list Repo.t) (acc : list Fork.t) (st : ProcState)
    : list Fork.t * ProcState :=
  match recentForks with
  | [] => (acc, st)
  | repo :: rest =>
      let detailed := fetchRepoDetails w repo in
      let '(summary, st1) := Legacy.generateBlogSummary w (random i) detailed st in
      summarize w random (S i) rest (acc ++ [record w i repo detailed summary]) st1
  end.

(** [main()]: the rejection of the listing, or the document handed to
    [fs.writeFileSync] as the last step. *)
Definition main (w : World) (random : nat → Legacy.Choice) (st : ProcState)
    : (Error + Document) * ProcState :=
  match fetchRepos w with
  | inl err => (inl err, st)
  | inr repos =>
      let recentForks := take reposToShow repos in
      let '(records, st1) := summarize w random 0 recentForks [] st in
      (inr {| lastUpdated := nowISO w;
              generatedWith := "GitHub Models API";
              forks := records |}, st1)
  end.

End LegacyMain.

(** ** The image keyword table of the forks-only variant *)

Module ForksFeed.

Definition topicKeywords : list (string * string) :=
  [ ("ai", "artificial-intelligence,neural");
    ("machine-learning", "data-science,algorithm");
    ("python", "code,programming");
    ("javascript", "web-development,code");
    ("typescript", "software,technology");
    ("react", "interface,design");
    ("data", "analytics,visualization");
    ("blockchain", "cryptocurrency,digital");
    ("web", "website,digital");
    ("mobile", "smartphone,app");
    ("game", "gaming,controller");
    ("security", "cybersecurity,lock");
    ("cloud", "server,cloud-computing");
    ("database", "server,data");
    ("api", "connection,network");
    ("automation", "robot,technology");
    ("bot", "robot,ai");
    ("agent", "ai,futuristic");
    ("llm", "brain,artificial-intelligence");
    ("gpt", "chat,ai");
    ("neural", "brain,network");
    ("deep-learning", "neural,brain");
    ("kubernetes", "container,cloud");
    ("docker", "container,server");
    ("devops", "infrastructure,code") ].

(** [l.join(sep)] *)
Fixpoint join (sep : string) (l : list string) : string :=
  match l with
  | [] => ""
  | [x] => x
  | x :: rest => x +:+ sep +:+ join sep rest
  end.

(** The text the table is matched against. *)
Definition keywordText (repo : Repo.t) : string :=
  JS.toLowerCase
    (Repo.name repo +:+ " " +:+ JS.str_or (Repo.description repo) "" +:+ " " +:+
     join " " (default [] (Repo.topics repo))).

(** The [for ... of Object.entries(topicKeywords)] loop. *)
Fixpoint firstKeyword (text : string) (entries : list (string * string)) : string :=
  match entries with
  | [] => "technology,code"
  | (topic, keywords) :: rest =>
      if JS.includes text topic then keywords else firstKeyword text rest
  end.

Definition getImageKeyword (repo : Repo.t) : string :=
  firstKeyword (keywordText repo) topicKeywords.

End ForksFeed.

(** ** More sample inputs *)

(** A completion endpoint that always answers with a good article. *)
Definition helpful : nat → Request → Response :=
  fun _ _ => Http 200 "" (Some article401).

(** Three repositories, a cap of two, a helpful endpoint. *)
Definition helpfulWorld : World :=
  sampleWorld (Some "token") (sampleRepos 3) helpful.

Definition smallBatch : Config := {|
  username := "moses-y";
  reposToShow := 999;
  batchSize := 2;
  apiDelay := 3000;
  endpoint := "https://models.inference.ai.azure.com/chat/completions";
  available := ["gpt-4o"; "gpt-4o-mini"; "gpt-4.1"];
  maxTokens := 2000
|}.

(** ** The two stored copies of the single-pass script

    [src/scripts/update-forks.js] (lines 1-238) and [src/unnamed/part_000]
    hold the same single-pass script twice.  Their [generateBlogSummary]
    and [generateFallbackSummary] differ in two constants: the model name
    sent to the completion endpoint, and the bytes between the name and
    the article in the third template. *)

Module SinglePass.

Inductive Copy := update_forks_js | part_000.

(** [CONFIG.models.model] of update-forks.js, the literal of part_000. *)
Definition model (copy : Copy) : string :=
  match copy with
  | update_forks_js => "gpt-4o-mini"
  | part_000 => "openai/gpt-4o-mini"
  end.

(** The characters between [${name}] and [a ${lang}] in the third
    template, as each file stores them. *)
Definition dash (copy : Copy) : string :=
  match copy with
  | update_forks_js => "â€”"
  | part_000 => "—"
  end.

Definition templates (copy : Copy) (name lang : string) : list string :=
  [ "A compelling " +:+ lang +:+ " project that explores " +:+ name +:+
    ". Worth diving into for developers interested in modern software patterns and clean implementations.";
    name +:+ " offers an interesting approach built with " +:+ lang +:+
    ". The codebase demonstrates practical solutions that could accelerate your next project.";
    "Exploring " +:+ name +:+ " " +:+ dash copy +:+ " a " +:+ lang +:+
    " repository that caught my attention. It showcases techniques worth understanding for any serious developer." ].

(** [generateFallbackSummary(repo)]; [random] stands for
    [Math.floor(Math.random() * templates.length)]. *)
Definition generateFallbackSummary (copy : Copy) (random : Legacy.Choice)
    (repo : Repo.t) : string :=
  let desc := JS.str_or (Repo.description repo) "" in
  let lang := JS.str_or (Repo.language repo) "various technologies" in
  let name := displayNameOf (Repo.name repo) in
  if 50 <? String.length desc then desc
  else default "" (templates copy name lang !! Legacy.index random).

(** [generateBlogSummary(repo)]: without a token the fallback at once;
    otherwise one completion call, and the fallback on a failed call, a
    status that is not ok, or a summary of at most 20 characters. *)
Definition generateBlogSummary (copy : Copy) (w : World) (random : Legacy.Choice)
    (repo : Repo.t) (st : ProcState) : string * ProcState :=
  if negb (JS.truthy (GITHUB_TOKEN w))
  then (generateFallbackSummary copy random repo, st)
  else
    let req := {| req_model := model copy; req_repo := repo;
                  req_readme := None; req_fileTree := [] |} in
    let st1 := emit (CompletionCall req) st in
    match completion w (completionCalls st) req with
    | Unreachable => (generateFallbackSummary copy random repo, st1)
    | Http status _ content =>
        if negb (response_ok status) then (generateFallbackSummary copy random repo, st1)
        else
          match content with
          | Some summary =>
              if JS.truthy (Some summary) && (20 <? String.length summary)
              then (summary, st1)
              else (generateFallbackSummary copy random repo, st1)
          | None => (generateFallbackSummary copy random repo, st1)
          end
    end.

End SinglePass.



(** * Properties *)

(** ** Strings *)

Section Strings.

Lemma startsWith_app_l s t p :
  JS.startsWith s p = true → JS.startsWith (s +:+ t) p = true.
Proof.
  revert s; induction p as [|a p IH]; intros [|b s]; simpl; try done.
  - by destruct t.
  - destruct (Ascii.eqb a b); [apply IH | done].
Qed.

Lemma includes_cons c s p :
  JS.includes (String c s) p
  = if JS.startsWith (String c s) p then true else JS.includes s p.
Proof. reflexivity. Qed.

Lemma includes_app_l s t p :
  JS.includes s p = true → JS.includes (s +:+ t) p = true.
Proof.
  induction s as [|c s IH].
  - destruct p; [by destruct t | done].
  - change (String c s +:+ t) with (String c (s +:+ t)).
    rewrite !includes_cons.
    destruct (JS.startsWith (String c s) p) eqn:Hp.
    + intros _. change (String c (s +:+ t)) with (String c s +:+ t).
      by rewrite (startsWith_app_l _ t _ Hp).
    + intros H. destruct (JS.startsWith (String c (s +:+ t)) p); [done | by apply IH].
Qed.

Lemma includes_app_r s t p :
  JS.includes t p = true → JS.includes (s +:+ t) p = true.
Proof.
  intros H. induction s as [|c s IH]; [done |].
  change (String c s +:+ t) with (String c (s +:+ t)).
  rewrite includes_cons. by destruct (JS.startsWith (String c (s +:+ t)) p).
Qed.

Lemma toLowerCase_app s t :
  JS.toLowerCase (s +:+ t) = JS.toLowerCase s +:+ JS.toLowerCase t.
Proof.
  unfold JS.toLowerCase. induction s as [|c s IH]; simpl; [done | by rewrite IH].
Qed.

Lemma hasBadPhrase_intro article phrase :
  In phrase badPhrases →
  JS.includes (JS.toLowerCase article) (JS.toLowerCase phrase) = true →
  hasBadPhrase article = true.
Proof. intros Hin H. apply existsb_exists. by exists phrase. Qed.

Lemma fallback_long_bad desc lang : hasBadPhrase (fallback_long desc lang) = true.
Proof.
  apply (hasBadPhrase_intro _ "caught my attention for its practical approach").
  { right; left; reflexivity. }
  unfold fallback_long. rewrite !toLowerCase_app.
  do 5 apply includes_app_r. vm_compute. reflexivity.
Qed.

Lemma fallback_short_bad name lang : hasBadPhrase (fallback_short name lang) = true.
Proof.
  apply (hasBadPhrase_intro _ "demonstrates thoughtful software design").
  { left; reflexivity. }
  unfold fallback_short. rewrite !toLowerCase_app.
  do 3 apply includes_app_r. apply includes_app_l. vm_compute. reflexivity.
Qed.

Lemma generateFallbackSummary_bad repo :
  hasBadPhrase (generateFallbackSummary repo) = true.
Proof.
  unfold generateFallbackSummary.
  destruct (100 <? _); [apply fallback_long_bad | apply fallback_short_bad].
Qed.

Lemma isFallbackArticle_bad a : hasBadPhrase a = true → isFallbackArticle (Some a) = true.
Proof. intros H. unfold isFallbackArticle. rewrite H. by destruct (_ || _). Qed.

End Strings.

(** ** The quality predicate *)

Section Quality.

Lemma isFallbackArticle_acceptable article :
  isFallbackArticle article = negb (acceptable article).
Proof.
  destruct article as [a|]; [|done].
  unfold isFallbackArticle, acceptable.
  assert (JS.truthy (Some a) = false → String.length a = 0) as Hempty.
  { by destruct a. }
  destruct (JS.truthy (Some a)); cbn [negb orb].
  - destruct (Nat.ltb_spec (String.length a) 400), (Nat.leb_spec 400 (String.length a));
      try lia; cbn [andb negb]; by rewrite ?negb_involutive.
  - rewrite Hempty by done. reflexivity.
Qed.

Lemma classify_needsGeneration existing repos :
  (classify existing repos).2
  = List.filter (fun r => negb (hasGoodArticle existing r)) repos.
Proof.
  induction repos as [|repo rest IH]; [done|].
  cbn [classify List.filter]. destruct (classify existing rest) as [has needs].
  cbn [snd] in IH. unfold hasGoodArticle.
  destruct (existing !! Repo.id repo) as [e|]; cbn [negb]; [|by rewrite IH].
  rewrite isFallbackArticle_acceptable.
  destruct (acceptable (Fork.summary e)); cbn [negb snd]; by rewrite IH.
Qed.

Lemma classify_hasArticle existing repos :
  (classify existing repos).1
  = omap (fun r => match existing !! Repo.id r with
                   | Some e => if acceptable (Fork.summary e) then Some (r, e) else None
                   | None => None
                   end) repos.
Proof.
  induction repos as [|repo rest IH]; [done|].
  cbn [classify omap list_omap]. destruct (classify existing rest) as [has needs].
  cbn [fst] in IH.
  destruct (existing !! Repo.id repo) as [e|]; [|by rewrite <- IH].
  rewrite isFallbackArticle_acceptable.
  destruct (acceptable (Fork.summary e)); cbn [negb fst]; by rewrite <- IH.
Qed.

Lemma select_needsGeneration cfg existing repos :
  needsGeneration (select cfg existing repos)
  = List.filter (fun r => negb (hasGoodArticle existing r)) (take (reposToShow cfg) repos).
Proof.
  unfold select. rewrite <- classify_needsGeneration.
  by destruct (classify existing _).
Qed.

Lemma select_hasArticle cfg existing repos :
  hasArticle (select cfg existing repos)
  = (classify existing (take (reposToShow cfg) repos)).1.
Proof. unfold select. by destruct (classify existing _). Qed.

Lemma select_batchToProcess cfg existing repos :
  batchToProcess (select cfg existing repos)
  = take (batchSize cfg) (needsGeneration (select cfg existing repos)).
Proof. unfold select. by destruct (classify existing _). Qed.

Lemma select_recentRepos cfg existing repos :
  recentRepos (select cfg existing repos) = take (reposToShow cfg) repos.
Proof. unfold select. by destruct (classify existing _). Qed.

Lemma elem_of_hasArticle existing repos repo e :
  (repo, e) ∈ (classify existing repos).1
  ↔ repo ∈ repos ∧ existing !! Repo.id repo = Some e ∧ acceptable (Fork.summary e) = true.
Proof.
  rewrite classify_hasArticle, list_elem_of_omap. split.
  - intros (r & Hr & Heq). destruct (existing !! Repo.id r) as [e'|] eqn:He; [|done].
    destruct (acceptable (Fork.summary e')) eqn:Hacc; [|done].
    by simplify_eq.
  - intros (Hr & He & Hacc). exists repo. by rewrite He, Hacc.
Qed.

End Quality.

(** ** Sorting *)

Section Sorting.
Context {A : Type}.

Lemma sort_insert_Permutation (cmp : A → A → Z) x l : sort_insert cmp x l ≡ₚ x :: l.
Proof.
  induction l as [|y l IH]; simpl; [done|].
  destruct (cmp x y <=? 0)%Z; [done|].
  rewrite IH. apply Permutation_swap.
Qed.

Lemma sort_Permutation (cmp : A → A → Z) l : sort cmp l ≡ₚ l.
Proof.
  unfold sort. induction l as [|x l IH]; simpl; [done|].
  by rewrite sort_insert_Permutation, IH.
Qed.

Lemma sort_length (cmp : A → A → Z) l : length (sort cmp l) = length l.
Proof. by rewrite sort_Permutation. Qed.

Lemma elem_of_sort (cmp : A → A → Z) l x : x ∈ sort cmp l ↔ x ∈ l.
Proof. by rewrite sort_Permutation. Qed.

(** A comparator that subtracts keys, larger keys first. *)
Variable key : A → Z.
Let cmp (a b : A) : Z := (key b - key a)%Z.
Let descending (a b : A) : Prop := (key b ≤ key a)%Z.

Lemma sort_insert_sorted x l :
  StronglySorted descending l → StronglySorted descending (sort_insert cmp x l).
Proof.
  induction 1 as [|y l Hl IH Hy]; simpl.
  - repeat constructor.
  - destruct (Z.leb_spec (cmp x y) 0) as [Hle|Hgt]; unfold cmp in *.
    + constructor; [by constructor|].
      constructor; [unfold descending; lia|].
      eapply Forall_impl; [exact Hy|]. unfold descending. intros z Hz. simpl in Hz. lia.
    + constructor; [done|].
      rewrite sort_insert_Permutation. constructor; [|done].
      unfold descending; lia.
Qed.

Lemma sort_sorted l : StronglySorted descending (sort cmp l).
Proof.
  unfold sort. induction l as [|x l IH]; simpl; [constructor|].
  by apply sort_insert_sorted.
Qed.

End Sorting.

(** ** The persisted feed as a map *)

Section Existing.

Let index (existing : gmap Z Fork.t) (records : list Fork.t) : gmap Z Fork.t :=
  foldl (fun (existing : gmap Z Fork.t) fork => <[Fork.id fork := fork]> existing)
        existing records.

Lemma index_lookup_Some records : ∀ existing k f,
  index existing records !! k = Some f →
  (f ∈ records ∧ Fork.id f = k) ∨ existing !! k = Some f.
Proof.
  induction records as [|r records IH]; intros existing k f; simpl; [by right|].
  intros H. apply IH in H as [[Hin Hid]|H].
  - left. split; [by apply list_elem_of_further | done].
  - destruct (decide (Fork.id r = k)) as [Heq|Hne].
    + subst k. rewrite lookup_insert_eq in H. simplify_eq.
      left. split; [apply list_elem_of_here | done].
    + rewrite lookup_insert_ne in H by done. by right.
Qed.

Lemma index_lookup_is_Some records : ∀ existing k,
  (∃ f, f ∈ records ∧ Fork.id f = k) ∨ is_Some (existing !! k) →
  is_Some (index existing records !! k).
Proof.
  induction records as [|r records IH]; intros existing k; simpl.
  - intros [(f & Hin & _)|H]; [by apply elem_of_nil in Hin | done].
  - intros [(f & Hin & Hid)|H]; apply IH.
    + apply elem_of_cons in Hin as [->|Hin]; [|left; eauto].
      right. rewrite <- Hid, lookup_insert_eq. eauto.
    + right. destruct (decide (Fork.id r = k)) as [<-|Hne].
      * rewrite lookup_insert_eq. eauto.
      * by rewrite lookup_insert_ne.
Qed.

Lemma loadExisting_Some file k f :
  loadExistingArticles file !! k = Some f →
  ∃ data, file = Json data ∧ f ∈ forks data ∧ Fork.id f = k.
Proof.
  destruct file as [| |data]; simpl; try by rewrite lookup_empty.
  intros H. apply index_lookup_Some in H as [[? ?]|H]; [eauto|].
  by rewrite lookup_empty in H.
Qed.

Lemma loadExisting_id file k f :
  loadExistingArticles file !! k = Some f → Fork.id f = k.
Proof. intros H. by apply loadExisting_Some in H as (? & _ & _ & ?). Qed.

Lemma loadExisting_is_Some data k f :
  f ∈ forks data → Fork.id f = k → is_Some (loadExistingArticles (Json data) !! k).
Proof. intros Hin Hid. apply index_lookup_is_Some. left. eauto. Qed.

Lemma loadExisting_None data k :
  (∀ f, f ∈ forks data → Fork.id f ≠ k) → loadExistingArticles (Json data) !! k = None.
Proof.
  intros H. destruct (loadExistingArticles (Json data) !! k) as [f|] eqn:Hf; [|done].
  apply loadExisting_Some in Hf as (d & Hd & Hin & Hid). simplify_eq.
  by destruct (H f Hin).
Qed.

End Existing.


(** ** Model rotation *)

Section Rotation.

Lemma getNextModel_loop_Some models limits cur : ∀ steps i model next,
  getNextModel_loop models limits cur i steps = Some (model, next) →
  model ∈ models ∧ rateLimited limits model = false.
Proof.
  induction steps as [|steps IH]; intros i model next; simpl; [done|].
  destruct (models !! _) as [m|] eqn:Hm; [|done].
  destruct (rateLimited limits m) eqn:Hr; simpl.
  - apply IH.
  - intros [= <- <-]. split; [|done]. apply list_elem_of_lookup. eauto.
Qed.

Lemma getNextModel_loop_None models limits cur :
  (∀ m, m ∈ models → rateLimited limits m = true) →
  ∀ steps i, getNextModel_loop models limits cur i steps = None.
Proof.
  intros Hall. induction steps as [|steps IH]; intros i; simpl; [done|].
  destruct (models !! _) as [m|] eqn:Hm; [|done].
  rewrite Hall; [apply IH|]. apply list_elem_of_lookup. eauto.
Qed.

Lemma getNextModel_Some cfg st model st1 :
  getNextModel cfg st = (Some model, st1) →
  model ∈ available cfg
  ∧ rateLimited (modelRateLimits st) model = false
  ∧ forks_json st1 = forks_json st
  ∧ modelRateLimits st1 = modelRateLimits st
  ∧ trace st1 = trace st.
Proof.
  unfold getNextModel.
  destruct (getNextModel_loop _ _ _ _ _) as [[m next]|] eqn:Hloop; [|done].
  intros [= <- <-]. by apply getNextModel_loop_Some in Hloop as [? ?].
Qed.

Lemma getNextModel_None cfg st st1 : getNextModel cfg st = (None, st1) → st1 = st.
Proof.
  unfold getNextModel.
  destruct (getNextModel_loop _ _ _ _ _) as [[m next]|]; [done|]. by intros [= <-].
Qed.

Lemma getNextModel_exhausted cfg st :
  (∀ m, m ∈ available cfg → rateLimited (modelRateLimits st) m = true) →
  getNextModel cfg st = (None, st).
Proof. intros Hall. unfold getNextModel. by rewrite getNextModel_loop_None. Qed.

Lemma rateLimited_mark limits model m :
  rateLimited (<[model := true]> limits) m
  = if decide (model = m) then true else rateLimited limits m.
Proof.
  unfold rateLimited. destruct (decide (model = m)) as [->|Hne].
  - by rewrite lookup_insert_eq.
  - by rewrite lookup_insert_ne.
Qed.

Lemma filter_length_mono {A} (f g : A → bool) l :
  (∀ y, f y = true → g y = true) →
  length (List.filter f l) ≤ length (List.filter g l).
Proof.
  intros Himp. induction l as [|y l IH]; simpl; [done|].
  destruct (f y) eqn:Hf.
  - rewrite (Himp y Hf). simpl. lia.
  - destruct (g y); simpl; lia.
Qed.

Lemma filter_length_strict {A} (f g : A → bool) l x :
  (∀ y, f y = true → g y = true) →
  x ∈ l → g x = true → f x = false →
  length (List.filter f l) < length (List.filter g l).
Proof.
  intros Himp Hin. induction Hin as [x l|x y l Hin IH]; intros Hg Hf; simpl.
  - rewrite Hg, Hf. simpl. pose proof (filter_length_mono f g l Himp). lia.
  - specialize (IH Hg Hf). destruct (f y) eqn:Hfy.
    + rewrite (Himp y Hfy). simpl. lia.
    + destruct (g y); simpl; lia.
Qed.

Lemma unmarked_bound cfg st : unmarked cfg st ≤ length (available cfg).
Proof. unfold unmarked. apply List.filter_length_le. Qed.

Lemma unmarked_mark_lt cfg st model :
  model ∈ available cfg →
  rateLimited (modelRateLimits st) model = false →
  unmarked cfg (markRateLimited model st) < unmarked cfg st.
Proof.
  intros Hin Hfree. unfold unmarked. simpl.
  apply (filter_length_strict _ _ _ model); [|done| |].
  - intros m. rewrite rateLimited_mark. by destruct (decide (model = m)).
  - by rewrite Hfree.
  - rewrite rateLimited_mark. by rewrite decide_True.
Qed.

Lemma unmarked_eq cfg st st' :
  modelRateLimits st' = modelRateLimits st → unmarked cfg st' = unmarked cfg st.
Proof. unfold unmarked. by intros ->. Qed.

End Rotation.

(** ** Content generator *)

Section Generator.
Context (cfg : Config) (w : World).

Lemma extends_refl st : extends st st.
Proof.
  split_and!; [done| |done]. exists []. by rewrite app_nil_r.
Qed.

Lemma extends_trans st1 st2 st3 : extends st1 st2 → extends st2 st3 → extends st1 st3.
Proof.
  intros (Hf1 & (c1 & Ht1 & Hc1) & Hm1) (Hf2 & (c2 & Ht2 & Hc2) & Hm2).
  split_and!; [congruence| |auto].
  exists (c1 ++ c2). split; [by rewrite Ht2, Ht1, app_assoc | by apply Forall_app].
Qed.

Lemma extends_same st st' :
  forks_json st' = forks_json st → trace st' = trace st →
  modelRateLimits st' = modelRateLimits st → extends st st'.
Proof.
  intros Hf Ht Hm. split_and!; [done| |by rewrite Hm].
  exists []. by rewrite app_nil_r.
Qed.

Lemma extends_emit st req : extends st (emit (CompletionCall req) st).
Proof.
  split_and!; [done| |done]. exists [CompletionCall req]. split; [done|by repeat constructor].
Qed.

Lemma extends_mark st model : extends st (markRateLimited model st).
Proof.
  split_and!; [done| |].
  - exists []. simpl. by rewrite app_nil_r.
  - intros m Hm. simpl. rewrite rateLimited_mark. by destruct (decide (model = m)).
Qed.

Lemma completionCalls_trace st st' :
  trace st' = trace st → completionCalls st' = completionCalls st.
Proof. unfold completionCalls. by intros ->. Qed.

Lemma completionCalls_emit st req :
  completionCalls (emit (CompletionCall req) st) = S (completionCalls st).
Proof.
  unfold completionCalls. simpl. rewrite filter_app, length_app. simpl. lia.
Qed.

Lemma completionCalls_extends st st' :
  extends st st' → completionCalls st ≤ completionCalls st'.
Proof.
  intros (_ & (calls & Ht & _) & _). unfold completionCalls.
  rewrite Ht, filter_app, length_app. lia.
Qed.

Lemma unmarked_pos st model :
  model ∈ available cfg → rateLimited (modelRateLimits st) model = false →
  0 < unmarked cfg st.
Proof.
  intros Hin Hfree. pose proof (unmarked_mark_lt cfg st model Hin Hfree). lia.
Qed.

(** What one top-level call does, for every recursion budget that
    exceeds the number of models still unmarked. *)
Lemma generateBlogArticle_rec_spec : ∀ depth repo readme fileTree st,
  unmarked cfg st < depth →
  ∃ a st',
    generateBlogArticle_rec depth cfg w repo readme fileTree st = Some (a, st')
    ∧ extends st st'
    ∧ completionCalls st' ≤ completionCalls st + unmarked cfg st
    ∧ (JS.truthy (GITHUB_TOKEN w) = false →
         a = Some (generateFallbackSummary repo) ∧ st' = st)
    ∧ (JS.truthy (GITHUB_TOKEN w) = true → ∀ article, a = Some article →
         400 < String.length article
         ∧ ∃ n req status text,
             completion w n req = Http status text (Some article)
             ∧ response_ok status = true).
Proof.
  induction depth as [|depth IH]; intros repo readme fileTree st Hlt; [lia|].
  cbn [generateBlogArticle_rec].
  destruct (JS.truthy (GITHUB_TOKEN w)) eqn:Htok; cbn [negb].
  2:{ eexists _, _. split_and!; [done|apply extends_refl|lia|done|done]. }
  destruct (getNextModel cfg st) as [[model|] st1] eqn:Hnext.
  2:{ apply getNextModel_None in Hnext as ->.
      eexists _, _. split_and!; [done|apply extends_refl|lia|done|done]. }
  apply getNextModel_Some in Hnext as (Hin & Hfree & Hfile & Hlim & Htr).
  set (req := {| req_model := model; req_repo := repo;
                 req_readme := readme; req_fileTree := fileTree |}).
  assert (extends st (emit (CompletionCall req) st1)) as Hext.
  { eapply extends_trans; [by apply extends_same|apply extends_emit]. }
  assert (completionCalls (emit (CompletionCall req) st1) ≤
          completionCalls st + unmarked cfg st) as Hcalls.
  { rewrite completionCalls_emit, (completionCalls_trace st st1) by done.
    pose proof (unmarked_pos st model Hin Hfree). lia. }
  destruct (completion w (completionCalls st1) req) as [|status text content] eqn:Hresp.
  { eexists _, _. split_and!; [done|done|done|done|done]. }
  destruct (response_ok status) eqn:Hok; cbn [negb].
  - destruct content as [article|].
    2:{ eexists _, _. split_and!; [done|done|done|done|done]. }
    destruct (JS.truthy (Some article) && (400 <? String.length article)) eqn:Hlen.
    2:{ eexists _, _. split_and!; [done|done|done|done|done]. }
    eexists _, _. split_and!; [done|done|done|done|].
    intros _ a [= <-]. apply andb_true_iff in Hlen as [_ Hlen%Nat.ltb_lt].
    split; [done|]. by eexists _, _, _, _.
  - destruct (status =? 429)%Z.
    2:{ eexists _, _. split_and!; [done|done|done|done|done]. }
    pose proof (unmarked_mark_lt cfg (emit (CompletionCall req) st1) model Hin) as Hdec.
    simpl in Hdec. rewrite Hlim in Hdec. specialize (Hdec Hfree).
    change (unmarked cfg (emit (CompletionCall req) st1)) with (unmarked cfg st1) in Hdec.
    rewrite (unmarked_eq cfg st st1 Hlim) in Hdec.
    destruct (IH repo readme fileTree (markRateLimited model (emit (CompletionCall req) st1)))
      as (a & st' & Hrec & Hext' & Hcalls' & Habsent & Hpresent); [lia|].
    exists a, st'. split_and!; [done| | |done|done].
    + eapply extends_trans; [exact Hext|].
      eapply extends_trans; [apply extends_mark|exact Hext'].
    + change (completionCalls (markRateLimited model (emit (CompletionCall req) st1)))
        with (completionCalls (emit (CompletionCall req) st1)) in Hcalls'.
      rewrite completionCalls_emit, (completionCalls_trace st st1) in Hcalls' by done.
      lia.
Qed.

End Generator.

(** ** The generation loop *)

Section Loop.
Context (cfg : Config) (w : World).

Lemma generateBlogArticle_spec repo readme fileTree st :
  ∃ a st',
    generateBlogArticle_rec (S (length (available cfg))) cfg w repo readme fileTree st
      = Some (a, st')
    ∧ generateBlogArticle cfg w repo readme fileTree st = (a, st')
    ∧ extends st st'
    ∧ completionCalls st' ≤ completionCalls st + unmarked cfg st
    ∧ (JS.truthy (GITHUB_TOKEN w) = false →
         a = Some (generateFallbackSummary repo) ∧ st' = st)
    ∧ (JS.truthy (GITHUB_TOKEN w) = true → ∀ article, a = Some article →
         400 < String.length article
         ∧ ∃ n req status text,
             completion w n req = Http status text (Some article)
             ∧ response_ok status = true).
Proof.
  destruct (generateBlogArticle_rec_spec cfg w (S (length (available cfg)))
              repo readme fileTree st) as (a & st' & Hrec & H).
  { pose proof (unmarked_bound cfg st). lia. }
  exists a, st'. split; [done|]. split; [|done].
  unfold generateBlogArticle. by rewrite Hrec.
Qed.

Lemma generateFallbackSummary_details repo :
  generateFallbackSummary (fetchRepoDetails w repo) = generateFallbackSummary repo.
Proof. unfold fetchRepoDetails. by destruct (repoDetails w repo). Qed.

Lemma tryGenerate_spec detailed readme fileTree ls st :
  ∃ article ls1 st1,
    tryGenerate cfg w detailed readme fileTree ls st = (article, ls1, st1)
    ∧ acc_forks ls1 = acc_forks ls
    ∧ extends st st1
    ∧ (JS.truthy (GITHUB_TOKEN w) = false → st1 = st)
    ∧ (article = None ∨
       ∃ st0 st0', generateBlogArticle cfg w detailed readme fileTree st0 = (article, st0')).
Proof.
  unfold tryGenerate. destruct (rateLimitHit ls).
  { eexists _, _, _. split_and!; [done|done|apply extends_refl|done|by left]. }
  destruct (generateBlogArticle_spec detailed readme fileTree st)
    as (a & st' & _ & Hgen & Hext & _ & Habsent & _).
  rewrite Hgen.
  destruct (JS.truthy a); eexists _, _, _;
    (split_and!; [done|done|done| |right; eauto]);
    intros Htok; by destruct (Habsent Htok).
Qed.

(** The records pushed for a batch, whatever the articles are. *)
Lemma processBatch_spec batch : ∀ i ls st,
  ∃ gens,
    acc_forks (processBatch cfg w i batch ls st).1 = acc_forks ls ++ gens
    ∧ Forall2 (fun repo f =>
                 ∃ j article, f = generated w j repo (fetchRepoDetails w repo) article)
              batch gens
    ∧ extends st (processBatch cfg w i batch ls st).2
    ∧ (JS.truthy (GITHUB_TOKEN w) = false → (processBatch cfg w i batch ls st).2 = st).
Proof.
  induction batch as [|repo rest IH]; intros i ls st; cbn [processBatch].
  { exists []. split_and!; [by rewrite app_nil_r|constructor|apply extends_refl|done]. }
  destruct (tryGenerate_spec (fetchRepoDetails w repo) (fetchReadme w repo)
              (fetchRepoTree w repo) ls st)
    as (article & ls1 & st1 & -> & Hacc & Hext & Habsent & _).
  set (f := generated w i repo (fetchRepoDetails w repo) _).
  destruct (IH (S i) (push f ls1) st1) as (gens & Hforks & Hall & Hext' & Habsent').
  exists (f :: gens). split_and!.
  - rewrite Hforks. simpl. by rewrite Hacc, <- app_assoc.
  - constructor; [by eexists _, _|done].
  - by eapply extends_trans.
  - intros Htok. by rewrite Habsent', Habsent.
Qed.

(** The records pushed for a batch when the generator never returns
    anything but the fallback text. *)
Lemma processBatch_fallback batch :
  (∀ repo readme fileTree st a st',
     generateBlogArticle cfg w repo readme fileTree st = (Some a, st') →
     a = generateFallbackSummary repo) →
  ∀ i ls st,
    acc_forks (processBatch cfg w i batch ls st).1
    = acc_forks ls
      ++ imap (fun j repo =>
                 generated w (i + j) repo (fetchRepoDetails w repo)
                           (generateFallbackSummary repo)) batch.
Proof.
  intros Honly. induction batch as [|repo rest IH]; intros i ls st; cbn [processBatch].
  { by rewrite app_nil_r. }
  destruct (tryGenerate_spec (fetchRepoDetails w repo) (fetchReadme w repo)
              (fetchRepoTree w repo) ls st)
    as (article & ls1 & st1 & -> & Hacc & _ & _ & Harticle).
  assert (JS.str_or article (generateFallbackSummary repo) = generateFallbackSummary repo)
    as ->.
  { destruct Harticle as [->|(st0 & st0' & Hgen)]; [done|].
    destruct article as [a|]; [|done].
    apply Honly in Hgen. rewrite generateFallbackSummary_details in Hgen. subst a.
    by destruct (generateFallbackSummary repo). }
  rewrite IH. simpl. rewrite Hacc, <- app_assoc. simpl.
  rewrite Nat.add_0_r. do 2 f_equal. apply imap_ext. intros j r _. simpl.
  by rewrite Nat.add_succ_r.
Qed.

End Loop.

(** ** The run *)

Section Run.
Context (cfg : Config) (w : World).

Lemma main_rejected st err : fetchRepos w = inl err → main cfg w st = (Rejected err, st).
Proof. intros H. unfold main. by rewrite H. Qed.

Lemma main_resolved st repos :
  fetchRepos w = inr repos →
  let sel := select cfg (loadExistingArticles (forks_json st)) repos in
  let r := processBatch cfg w 0 (batchToProcess sel) (preserved w (hasArticle sel)) st in
  main cfg w st = (Resolved, writeFileSync (makeOutput w sel (acc_forks r.1)) r.2).
Proof.
  intros H sel r. unfold main. rewrite H. fold sel.
  destruct (batchToProcess sel) as [|repo rest] eqn:Hbatch; subst r; cbn - [processBatch].
  - done.
  - by destruct (processBatch _ _ _ _ _ _).
Qed.

Lemma makeOutput_pending sel records :
  pending (progress (makeOutput w sel records))
  = length (needsGeneration sel) - length (batchToProcess sel).
Proof. done. Qed.

Lemma makeOutput_forks sel records :
  forks (makeOutput w sel records) = sort (byUpdatedAtDesc w) records.
Proof. done. Qed.

End Run.

(** ** What a run writes *)

Section Output.
Context (cfg : Config) (w : World).

(** The generator of this world returns the fallback text or nothing. *)
Let onlyFallback : Prop :=
  ∀ repo readme fileTree st a st',
    generateBlogArticle cfg w repo readme fileTree st = (Some a, st') →
    a = generateFallbackSummary repo.

Lemma onlyFallback_no_token : JS.truthy (GITHUB_TOKEN w) = false → onlyFallback.
Proof.
  intros Htok repo readme fileTree st a st' Hgen.
  destruct (generateBlogArticle_spec cfg w repo readme fileTree st)
    as (a' & st'' & _ & Hgen' & _ & _ & Habsent & _).
  destruct (Habsent Htok) as [-> ->]. congruence.
Qed.

Lemma onlyFallback_unreachable :
  (∀ n req, completion w n req = Unreachable) → onlyFallback.
Proof.
  intros Hdown repo readme fileTree st a st' Hgen.
  destruct (JS.truthy (GITHUB_TOKEN w)) eqn:Htok; [|by eapply onlyFallback_no_token].
  destruct (generateBlogArticle_spec cfg w repo readme fileTree st)
    as (a' & st'' & _ & Hgen' & _ & _ & _ & Hpresent).
  rewrite Hgen in Hgen'. simplify_eq.
  destruct (Hpresent Htok a eq_refl) as (_ & n & req & status & text & Hresp & _).
  by rewrite Hdown in Hresp.
Qed.

(** The shape of every run that gets past the repository listing. *)
Lemma main_output file repos :
  fetchRepos w = inr repos →
  let sel := select cfg (loadExistingArticles file) repos in
  ∃ st gens calls,
    let doc := makeOutput w sel (List.map (preserve w) (hasArticle sel) ++ gens) in
    main cfg w (start file) = (Resolved, st)
    ∧ forks_json st = Json doc
    ∧ trace st = calls ++ [FileWrite doc]
    ∧ Forall (fun e => is_completion e = true) calls
    ∧ Forall2 (fun repo f =>
                 ∃ j article, f = generated w j repo (fetchRepoDetails w repo) article)
              (batchToProcess sel) gens
    ∧ (JS.truthy (GITHUB_TOKEN w) = false → calls = [])
    ∧ (onlyFallback → gens = fallbackRecords w (batchToProcess sel)).
Proof.
  intros Hrepos sel.
  pose proof (main_resolved cfg w (start file) repos Hrepos) as Hmain.
  cbn zeta in Hmain. change (forks_json (start file)) with file in Hmain. fold sel in Hmain.
  destruct (processBatch_spec cfg w (batchToProcess sel) 0
              (preserved w (hasArticle sel)) (start file))
    as (gens & Hforks & Hall & (_ & (calls & Htrace & Hcalls) & _) & Habsent).
  set (r := processBatch cfg w 0 (batchToProcess sel)
              (preserved w (hasArticle sel)) (start file)) in *.
  exists (writeFileSync (makeOutput w sel (acc_forks r.1)) r.2), gens, calls.
  cbn zeta. simpl in Hforks. rewrite <- Hforks. split_and!; try done.
  - simpl. by rewrite Htrace.
  - intros Htok. rewrite (Habsent Htok) in Htrace. simpl in Htrace. done.
  - intros Honly.
    pose proof (processBatch_fallback cfg w (batchToProcess sel) Honly 0
                  (preserved w (hasArticle sel)) (start file)) as Hfb.
    fold r in Hfb. rewrite Hforks in Hfb. by apply app_inv_head in Hfb.
Qed.

Lemma generated_in_batch (batch : list Repo.t) (gens : list Fork.t) f :
  Forall2 (fun repo f =>
             ∃ j article, f = generated w j repo (fetchRepoDetails w repo) article)
          batch gens →
  f ∈ gens →
  ∃ repo j article, repo ∈ batch ∧ f = generated w j repo (fetchRepoDetails w repo) article.
Proof.
  intros Hall Hin. apply list_elem_of_lookup in Hin as [i Hi].
  destruct (Forall2_lookup_r _ _ _ _ _ Hall Hi) as (repo & Hrepo & j & article & ->).
  exists repo, j, article. split; [|done]. apply list_elem_of_lookup. eauto.
Qed.

Lemma elem_of_needsGeneration existing repos repo :
  repo ∈ needsGeneration (select cfg existing repos)
  ↔ repo ∈ take (reposToShow cfg) repos ∧ hasGoodArticle existing repo = false.
Proof.
  rewrite select_needsGeneration, list_elem_of_In, filter_In, <- list_elem_of_In.
  by rewrite negb_true_iff.
Qed.

Lemma elem_of_batchToProcess existing repos repo :
  repo ∈ batchToProcess (select cfg existing repos) →
  repo ∈ take (reposToShow cfg) repos ∧ hasGoodArticle existing repo = false.
Proof.
  rewrite select_batchToProcess. intros Hin. apply elem_of_needsGeneration.
  apply elem_of_take in Hin as (i & Hi & _). apply list_elem_of_lookup. eauto.
Qed.

End Output.

(** ** The model on concrete inputs *)

(** With every answer a 429 one call tries the three models in turn,
    marks them all and returns [null]. *)
Example throttled_call :
  let r := generateBlogArticle CONFIG throttledWorld (sampleRepo 1) None [] (start NoFile) in
  r.1 = None
  ∧ completionCalls r.2 = 3
  ∧ unmarked CONFIG r.2 = 0
  ∧ List.map (fun e => match e with
                       | CompletionCall req => req_model req
                       | FileWrite _ => ""
                       end) (trace r.2)
    = ["gpt-4o"; "gpt-4o-mini"; "gpt-4.1"].
Proof. vm_compute. by repeat split. Qed.

(** The rotation skips a marked model. *)
Example rotation_skips_marked :
  (getNextModel CONFIG (markRateLimited "gpt-4o-mini"
                          (set_currentModelIndex 1 (start NoFile)))).1
  = Some "gpt-4.1".
Proof. reflexivity. Qed.

(** Pagination stops at the first page with fewer than 100 entries and
    fails on a status outside 200-299. *)
Example pagination_ends :
  fetchPages [PageHttp 200 (sampleRepos 100); PageHttp 200 (sampleRepos 2);
              PageHttp 500 []] []
  = inr (sampleRepos 100 ++ sampleRepos 2)
  ∧ fetchPages [PageHttp 200 (sampleRepos 100); PageHttp 403 []] []
    = inl (GitHubAPIError 403).
Proof. vm_compute. by split. Qed.

Example fallback_text :
  generateFallbackSummary (sampleRepo 1)
  = "sample repo is a OCaml project that demonstrates thoughtful software design. While exploring the codebase, I found patterns and implementations that could accelerate similar projects. Worth investigating if you're working with OCaml or interested in clean, maintainable code architecture.".
Proof. reflexivity. Qed.

Example read_time :
  estimateReadTime "one two  three" = 2
  ∧ JS.split_ws_length "one two  three" = 3
  ∧ JS.split_ws_length "" = 1.
Proof. by vm_compute. Qed.

(** A rejected listing leaves the file alone; the process exits with 1. *)
Example listing_failure :
  let e := runScript CONFIG forbiddenWorld keptFile in
  exitCode e = 1%Z ∧ stderr e = [GitHubAPIError 403] ∧ forks_json (final e) = keptFile.
Proof. vm_compute. by repeat split. Qed.

(** * The claims *)

(** C10.  The article the fallback template produces is itself
    classified as needing regeneration: [isFallbackArticle] holds of
    [generateFallbackSummary repo] for every repository, because each of
    the two template branches embeds a denylist phrase; a repository whose
    persisted record carries such an article is therefore put back into
    the regeneration queue by the next run. *)
Theorem fallback_summary_needs_regeneration (repo : Repo.t) :
  isFallbackArticle (Some (generateFallbackSummary repo)) = true
  ∧ (∀ desc name lang,
       hasBadPhrase (fallback_long desc lang) = true
       ∧ hasBadPhrase (fallback_short name lang) = true)
  ∧ (∀ (w : World) (i : nat) (r detailed : Repo.t) (existing : gmap Z Fork.t),
       classify (<[Repo.id r := generated w i r detailed (generateFallbackSummary repo)]>
                   existing) [r]
       = ([], [r])).
Proof.
  assert (isFallbackArticle (Some (generateFallbackSummary repo)) = true) as Hbad.
  { apply isFallbackArticle_bad, generateFallbackSummary_bad. }
  split_and!; [done| |].
  - intros desc name lang. split; [apply fallback_long_bad | apply fallback_short_bad].
  - intros w i r detailed existing. cbn [classify].
    rewrite lookup_insert_eq. cbn [generated Fork.summary]. by rewrite Hbad.
Qed.

(** C3, counterexample.  An article of exactly 400 characters without
    a denylist phrase does not exceed the threshold, so the claim's
    predicate rejects it; the code accepts it and carries the repository
    forward instead of queueing it. *)
Lemma acceptable_threshold_counterexample :
  String.length article400 = 400
  ∧ hasBadPhrase article400 = false
  ∧ Claimed.acceptable (Some article400) = false
  ∧ isFallbackArticle (Some article400) = false
  ∧ classify (<[1%Z := sampleRecord 1 (Some article400)]> ∅) [sampleRepo 1]
    = ([(sampleRepo 1, sampleRecord 1 (Some article400))], []).
Proof. vm_compute. by repeat split. Qed.

(** C3, as the code has it.  The run partitions the selected
    repositories by the quality predicate: an existing article is
    acceptable exactly when it exists, its length is at least 400, and it
    contains none of the denylist phrases under case-insensitive substring
    matching; every repository with no prior record or with an article
    that fails the predicate is in [needsGeneration], every repository
    whose article passes is in [hasArticle] with its record. *)
Theorem partition_by_acceptability (cfg : Config) (existing : gmap Z Fork.t)
    (repos : list Repo.t) :
  let sel := select cfg existing repos in
  (∀ article, isFallbackArticle article = negb (acceptable article))
  ∧ (∀ article,
       acceptable article = true
       ↔ ∃ a, article = Some a ∧ 400 ≤ String.length a
              ∧ ∀ phrase, phrase ∈ badPhrases →
                  JS.includes (JS.toLowerCase a) (JS.toLowerCase phrase) = false)
  ∧ needsGeneration sel
    = List.filter (fun r => negb (hasGoodArticle existing r)) (recentRepos sel)
  ∧ (∀ repo, repo ∈ needsGeneration sel
             ↔ repo ∈ recentRepos sel ∧ hasGoodArticle existing repo = false)
  ∧ (∀ repo e, (repo, e) ∈ hasArticle sel
               ↔ repo ∈ recentRepos sel ∧ existing !! Repo.id repo = Some e
                 ∧ acceptable (Fork.summary e) = true).
Proof.
  intros sel. subst sel. rewrite select_recentRepos. split_and!.
  - apply isFallbackArticle_acceptable.
  - intros [a|]; unfold acceptable.
    + rewrite andb_true_iff, Nat.leb_le, negb_true_iff. unfold hasBadPhrase. split.
      * intros [Hlen Hnone]. exists a. split_and!; [done|done|].
        intros phrase Hin%list_elem_of_In.
        destruct (JS.includes _ _) eqn:Hinc; [|done].
        assert (existsb (fun phrase =>
                  JS.includes (JS.toLowerCase a) (JS.toLowerCase phrase)) badPhrases = true)
          as Hex by (apply existsb_exists; eauto).
        congruence.
      * intros (a' & [= <-] & Hlen & Hnone). split; [done|].
        apply not_true_is_false. intros (phrase & Hin & Hinc)%existsb_exists.
        apply list_elem_of_In in Hin. rewrite (Hnone phrase Hin) in Hinc. done.
    + split; [done|]. by intros (a & ? & _).
  - apply select_needsGeneration.
  - intros repo. apply elem_of_needsGeneration.
  - intros repo e. rewrite select_hasArticle. apply elem_of_hasArticle.
Qed.

Lemma filter_keepRepo_tagType (allRepos : list Repo.t) :
  List.filter keepRepo (List.map tagType allRepos)
  = List.map tagType (List.filter keepRepo allRepos).
Proof.
  induction allRepos as [|r l IH]; [done|]. cbn [List.map List.filter].
  change (keepRepo (tagType r)) with (keepRepo r).
  destruct (keepRepo r); cbn [List.map]; by rewrite IH.
Qed.

(** C8.  For every list of repositories received from the hosting
    API, [fetchRepos] returns exactly the repositories that are not
    archived and whose name does not contain ['.github.io'], each tagged
    ['fork'] or ['original'] after its fork flag, sorted by last-update
    timestamp in descending order. *)
Theorem fetchRepos_filters_tags_sorts (allRepos : list Repo.t) :
  let result := selectRepos allRepos in
  result ≡ₚ List.map tagType
              (List.filter (fun r => negb (JS.includes (Repo.name r) ".github.io")
                                     && negb (Repo.archived r)) allRepos)
  ∧ (∀ r, r ∈ result
          ↔ ∃ r0, r0 ∈ allRepos ∧ r = tagType r0
                  ∧ Repo.archived r0 = false
                  ∧ JS.includes (Repo.name r0) ".github.io" = false)
  ∧ (∀ r0, Repo._type (tagType r0) = Some (if Repo.fork r0 then fork_t else original_t)
           ∧ Repo.id (tagType r0) = Repo.id r0
           ∧ Repo.name (tagType r0) = Repo.name r0
           ∧ Repo.updated_at (tagType r0) = Repo.updated_at r0)
  ∧ StronglySorted (fun a b => (Repo.updated_at b ≤ Repo.updated_at a)%Z) result
  ∧ (∀ w, fetchPages (listPages w) [] = inr allRepos → fetchRepos w = inr result).
Proof.
  intros result. subst result. unfold selectRepos.
  rewrite filter_keepRepo_tagType. split_and!.
  - apply sort_Permutation.
  - intros r. rewrite elem_of_sort, list_elem_of_fmap. split.
    + intros (r0 & -> & Hin). apply list_elem_of_In, filter_In in Hin as [Hin Hkeep].
      apply andb_true_iff in Hkeep as [Hname Harch].
      apply negb_true_iff in Hname, Harch. exists r0.
      by rewrite list_elem_of_In.
    + intros (r0 & Hin & -> & Harch & Hname). exists r0. split; [done|].
      apply list_elem_of_In, filter_In. split; [by apply list_elem_of_In|].
      unfold keepRepo. by rewrite Hname, Harch.
  - done.
  - apply (sort_sorted Repo.updated_at).
  - intros w Hpages. unfold fetchRepos, selectRepos.
    by rewrite Hpages, filter_keepRepo_tagType.
Qed.

(** C8, an instance: one page of four repositories, one of them the
    site itself and one archived. *)
Lemma fetchRepos_filters_tags_sorts_witness :
  fetchPages (listPages (sampleWorld None mixedRepos unreachable)) [] = inr mixedRepos
  ∧ fetchRepos (sampleWorld None mixedRepos unreachable)
    = inr [tagType (sampleRepo 1); tagType (sampleRepo 2)].
Proof.
  split; [reflexivity|].
  apply (fetchRepos_filters_tags_sorts mixedRepos). reflexivity.
Defined.

(** C2.  Whatever the repository list and the persisted feed, the
    batch selected for generation in one run has at most [batchSize]
    members (50 in [CONFIG]); the repositories needing regeneration beyond
    it are left out: the run pushes one record per batch member and none
    for the others, and reports their number as pending. *)
Theorem batch_never_exceeds_cap (cfg : Config) (w : World) (file : File)
    (repos : list Repo.t) :
  fetchRepos w = inr repos →
  let sel := select cfg (loadExistingArticles file) repos in
  length (batchToProcess sel) ≤ batchSize cfg
  ∧ batchSize CONFIG = 50
  ∧ needsGeneration sel = batchToProcess sel ++ drop (batchSize cfg) (needsGeneration sel)
  ∧ ∃ st doc gens,
      main cfg w (start file) = (Resolved, st)
      ∧ forks_json st = Json doc
      ∧ forks doc ≡ₚ List.map (preserve w) (hasArticle sel) ++ gens
      ∧ Forall2 (fun repo f => Fork.id f = Repo.id repo) (batchToProcess sel) gens
      ∧ length gens ≤ batchSize cfg
      ∧ pending (progress doc) = length (drop (batchSize cfg) (needsGeneration sel)).
Proof.
  intros Hrepos sel.
  assert (length (batchToProcess sel) ≤ batchSize cfg) as Hcap.
  { subst sel. rewrite select_batchToProcess, length_take. lia. }
  split_and!; [done|done| |].
  { subst sel. by rewrite select_batchToProcess, take_drop. }
  destruct (main_output cfg w file repos Hrepos)
    as (st & gens & calls & Hmain & Hfile & Htrace & Hcalls & Hall & _ & _).
  fold sel in Hmain, Hfile, Htrace, Hall.
  eexists st, _, gens. split_and!; [done|exact Hfile| | | |].
  - rewrite makeOutput_forks. apply sort_Permutation.
  - eapply Forall2_impl; [exact Hall|]. by intros repo f (j & article & ->).
  - apply Forall2_length in Hall. lia.
  - rewrite makeOutput_pending, length_drop. subst sel.
    rewrite (select_batchToProcess cfg), length_take. lia.
Qed.

(** C2, an instance: 51 repositories without a persisted feed under
    the cap of 50. *)
Lemma batch_never_exceeds_cap_witness :
  fetchRepos (sampleWorld (Some "token") (sampleRepos 51) unreachable)
  = inr (selectRepos (sampleRepos 51))
  ∧ length (batchToProcess
              (select CONFIG (loadExistingArticles NoFile) (selectRepos (sampleRepos 51))))
    ≤ 50.
Proof.
  assert (fetchRepos (sampleWorld (Some "token") (sampleRepos 51) unreachable)
          = inr (selectRepos (sampleRepos 51))) as Hrepos by reflexivity.
  split; [exact Hrepos|].
  exact (proj1 (batch_never_exceeds_cap CONFIG _ NoFile _ Hrepos)).
Defined.

Lemma no_write_among_calls (calls : list Event) :
  Forall (fun e => is_completion e = true) calls →
  filter (fun e => is_write e = true) calls = [].
Proof.
  induction 1 as [|e calls He _ IH]; [done|].
  rewrite filter_cons, IH. destruct e; [|done]. by rewrite decide_False.
Qed.

(** C9.  A run writes [forks.json] exactly once, as its last effect:
    when [main] rejects, nothing has been written and the file is the one
    the run started with, the error is printed and the exit status is 1;
    when [main] resolves, the single write is the last event of the trace
    and the exit status is 0. *)
Theorem single_write_and_exit_status (cfg : Config) (w : World) (file : File) :
  let e := runScript cfg w file in
  match main cfg w (start file) with
  | (Rejected err, st) =>
      exitCode e = 1%Z ∧ stderr e = [err] ∧ final e = start file
      ∧ forks_json (final e) = file ∧ fileWrites (final e) = 0
  | (Resolved, st) =>
      exitCode e = 0%Z ∧ stderr e = []
      ∧ ∃ doc calls,
          trace (final e) = calls ++ [FileWrite doc]
          ∧ Forall (fun ev => is_completion ev = true) calls
          ∧ fileWrites (final e) = 1
          ∧ forks_json (final e) = Json doc
  end.
Proof.
  intros e. subst e. unfold runScript.
  destruct (fetchRepos w) as [err|repos] eqn:Hrepos.
  - rewrite (main_rejected cfg w _ err Hrepos). by split_and!.
  - destruct (main_output cfg w file repos Hrepos)
      as (st & gens & calls & Hmain & Hfile & Htrace & Hcalls & _).
    rewrite Hmain. cbn [final exitCode stderr]. split_and!; [done|done|].
    eexists _, calls. split_and!; [exact Htrace|done| |exact Hfile].
    unfold fileWrites. rewrite Htrace, filter_app, (no_write_among_calls _ Hcalls).
    by rewrite filter_cons_True.
Qed.

Lemma generateBlogArticle_rec_mono (cfg : Config) (w : World) :
  ∀ depth repo readme fileTree st r,
    generateBlogArticle_rec depth cfg w repo readme fileTree st = Some r →
    ∀ depth', depth ≤ depth' →
      generateBlogArticle_rec depth' cfg w repo readme fileTree st = Some r.
Proof.
  induction depth as [|depth IH]; intros repo readme fileTree st r H depth' Hle; [done|].
  destruct depth' as [|depth']; [lia|]. cbn [generateBlogArticle_rec] in *.
  destruct (negb _); [done|].
  destruct (getNextModel cfg st) as [[model|] st1]; [|done].
  destruct (completion _ _ _) as [|status text content]; [done|].
  destruct (negb (response_ok status)); [|done].
  destruct (status =? 429)%Z; [|done].
  eapply IH; [done|lia].
Qed.

(** C7.  The recursion of [generateBlogArticle] on rate-limit answers
    is bounded by the size of the model list: every top-level call returns
    within a budget of one nested call per model still unmarked (so within
    [length available] nested calls), making at most that many completion
    calls; each retry marks a model that was unmarked, which strictly
    lowers the number of unmarked models, and [getNextModel] returns
    [null] once all are marked. *)
Theorem retry_recursion_is_bounded (cfg : Config) (w : World) (repo : Repo.t)
    (readme : option string) (fileTree : list string) (st : ProcState) :
  (∃ a st',
     generateBlogArticle_rec (S (length (available cfg))) cfg w repo readme fileTree st
       = Some (a, st')
     ∧ generateBlogArticle cfg w repo readme fileTree st = (a, st')
     ∧ (∀ depth, unmarked cfg st < depth →
          generateBlogArticle_rec depth cfg w repo readme fileTree st = Some (a, st'))
     ∧ completionCalls st' ≤ completionCalls st + unmarked cfg st)
  ∧ unmarked cfg st ≤ length (available cfg)
  ∧ (∀ model st1,
       getNextModel cfg st = (Some model, st1) →
       model ∈ available cfg
       ∧ rateLimited (modelRateLimits st) model = false
       ∧ rateLimited (modelRateLimits (markRateLimited model st1)) model = true
       ∧ unmarked cfg (markRateLimited model st1) < unmarked cfg st)
  ∧ ((∀ m, m ∈ available cfg → rateLimited (modelRateLimits st) m = true) →
       getNextModel cfg st = (None, st)).
Proof.
  split_and!.
  - destruct (generateBlogArticle_spec cfg w repo readme fileTree st)
      as (a & st' & Hrec & Hgen & _ & Hcalls & _).
    exists a, st'. split_and!; [done|done| |done].
    intros depth Hdepth.
    destruct (generateBlogArticle_rec_spec cfg w depth repo readme fileTree st Hdepth)
      as (a' & st'' & Hrec' & _).
    destruct (Nat.le_ge_cases depth (S (length (available cfg)))) as [Hle|Hle].
    + rewrite (generateBlogArticle_rec_mono _ _ _ _ _ _ _ _ Hrec' _ Hle) in Hrec.
      by rewrite Hrec', Hrec.
    + by apply (generateBlogArticle_rec_mono _ _ _ _ _ _ _ _ Hrec).
  - apply unmarked_bound.
  - intros model st1 Hnext.
    apply getNextModel_Some in Hnext as (Hin & Hfree & _ & Hlim & _).
    split_and!; [done|done| |].
    + simpl. rewrite rateLimited_mark. by rewrite decide_True.
    + rewrite <- (unmarked_eq cfg st st1 Hlim). apply unmarked_mark_lt; [done|].
      by rewrite Hlim.
  - apply getNextModel_exhausted.
Qed.

(** C7, an instance: the first retry of a fresh process marks
    [gpt-4o] and leaves two models unmarked. *)
Lemma retry_recursion_is_bounded_witness :
  getNextModel CONFIG (start NoFile) = (Some "gpt-4o", set_currentModelIndex 1 (start NoFile))
  ∧ unmarked CONFIG (markRateLimited "gpt-4o" (set_currentModelIndex 1 (start NoFile)))
    < unmarked CONFIG (start NoFile).
Proof.
  split; [reflexivity|].
  pose proof (retry_recursion_is_bounded CONFIG throttledWorld (sampleRepo 1) None []
                (start NoFile)) as (_ & _ & Hstep & _).
  exact (proj2 (proj2 (proj2 (Hstep "gpt-4o" _ eq_refl)))).
Defined.





(** The fallback generator of [Legacy] is the one stored in part_000. *)
Lemma legacy_fallback_is_part_000 (random : Legacy.Choice) (repo : Repo.t) :
  Legacy.generateFallbackSummary random repo
  = SinglePass.generateFallbackSummary SinglePass.part_000 random repo.
Proof. reflexivity. Qed.




(** ** Records of a repository in the written feed *)

Section Kept.
Context (cfg : Config) (w : World) (file : File) (repos : list Repo.t).

Let sel := select cfg (loadExistingArticles file) repos.

Lemma hasArticle_entry r e :
  (r, e) ∈ hasArticle sel →
  r ∈ take (reposToShow cfg) repos
  ∧ loadExistingArticles file !! Repo.id r = Some e
  ∧ acceptable (Fork.summary e) = true
  ∧ Fork.id (preserve w (r, e)) = Repo.id r
  ∧ Fork.summary (preserve w (r, e)) = Fork.summary e.
Proof.
  unfold sel. rewrite select_hasArticle, elem_of_hasArticle.
  intros (Hin & He & Hacc). split_and!; try done.
  cbn [preserve Fork.id]. by apply loadExisting_id in He.
Qed.

Lemma hasGoodArticle_id existing (r r' : Repo.t) :
  Repo.id r = Repo.id r' → hasGoodArticle existing r = hasGoodArticle existing r'.
Proof. unfold hasGoodArticle. by intros ->. Qed.

(** Every record written for a repository with a good article carries
    that article, and there is one. *)
Lemma good_records repo e gens :
  repo ∈ take (reposToShow cfg) repos →
  loadExistingArticles file !! Repo.id repo = Some e →
  acceptable (Fork.summary e) = true →
  Forall2 (fun repo f =>
             ∃ j article, f = generated w j repo (fetchRepoDetails w repo) article)
          (batchToProcess sel) gens →
  preserve w (repo, e) ∈ List.map (preserve w) (hasArticle sel) ++ gens
  ∧ ∀ f, f ∈ List.map (preserve w) (hasArticle sel) ++ gens →
         Fork.id f = Repo.id repo → Fork.summary f = Fork.summary e.
Proof.
  intros Hin He Hacc Hall. split.
  - apply elem_of_app. left. apply list_elem_of_fmap. exists (repo, e). split; [done|].
    unfold sel. rewrite select_hasArticle. by apply elem_of_hasArticle.
  - intros f [Hf|Hf]%elem_of_app Hid.
    + apply list_elem_of_fmap in Hf as ([r' e'] & -> & Hentry).
      apply hasArticle_entry in Hentry as (_ & He' & _ & Hid' & Hsum).
      rewrite Hsum. rewrite Hid' in Hid. rewrite Hid, He in He'. by simplify_eq.
    + destruct (generated_in_batch w _ _ _ Hall Hf) as (r' & j & article & Hbatch & ->).
      apply elem_of_batchToProcess in Hbatch as [_ Hbad].
      cbn [generated Fork.id] in Hid.
      rewrite (hasGoodArticle_id _ r' repo Hid) in Hbad.
      unfold hasGoodArticle in Hbad. rewrite He in Hbad. congruence.
Qed.

(** A record written for a repository without a good article was
    generated in this run. *)
Lemma other_records repo gens f :
  hasGoodArticle (loadExistingArticles file) repo = false →
  f ∈ List.map (preserve w) (hasArticle sel) ++ gens →
  Fork.id f = Repo.id repo →
  f ∈ gens.
Proof.
  intros Hbad [Hf|Hf]%elem_of_app Hid; [|done].
  apply list_elem_of_fmap in Hf as ([r' e'] & -> & Hentry).
  apply hasArticle_entry in Hentry as (_ & He' & Hacc & Hid' & _).
  rewrite Hid' in Hid. rewrite (hasGoodArticle_id _ repo r') in Hbad by done.
  unfold hasGoodArticle in Hbad. rewrite He' in Hbad. congruence.
Qed.

End Kept.

Lemma loadExisting_all (doc : FeedDocument) (k : Z) (P : Fork.t → Prop) :
  (∃ f, f ∈ forks doc ∧ Fork.id f = k) →
  (∀ f, f ∈ forks doc → Fork.id f = k → P f) →
  ∃ f, loadExistingArticles (Json doc) !! k = Some f ∧ P f.
Proof.
  intros (f0 & Hin0 & Hid0) Hall.
  destruct (loadExisting_is_Some doc k f0 Hin0 Hid0) as [f Hf].
  exists f. split; [done|].
  apply loadExisting_Some in Hf as (d & [= <-] & Hin & Hid). by apply Hall.
Qed.

Lemma Claimed_acceptable_passes (article : option string) :
  Claimed.acceptable article = true → isFallbackArticle article = false.
Proof.
  rewrite isFallbackArticle_acceptable, negb_false_iff.
  destruct article as [a|]; [|done]. unfold Claimed.acceptable, acceptable.
  rewrite !andb_true_iff, Nat.ltb_lt, Nat.leb_le. intros [? ?]. split; [lia|done].
Qed.

(** C5.  A repository of the run whose persisted article passes the
    quality check keeps that article: the run writes its record with the
    [summary] (and the identity, link, image, fork date and read time)
    unchanged, whatever the remote services answer and so also when they
    are unreachable; no record written for the repository carries another
    article, and the next run finds the same article in the feed.  The
    other fields of the record are refreshed from the repository. *)
Theorem good_article_is_kept (cfg : Config) (w : World) (file : File)
    (repos : list Repo.t) (repo : Repo.t) (existing : Fork.t) :
  fetchRepos w = inr repos →
  repo ∈ take (reposToShow cfg) repos →
  loadExistingArticles file !! Repo.id repo = Some existing →
  isFallbackArticle (Fork.summary existing) = false →
  ∃ st doc kept,
    main cfg w (start file) = (Resolved, st)
    ∧ forks_json st = Json doc
    ∧ kept ∈ forks doc
    ∧ kept = preserve w (repo, existing)
    ∧ Fork.summary kept = Fork.summary existing
    ∧ (Fork.id kept = Fork.id existing
       ∧ Fork.name kept = Fork.name existing
       ∧ Fork.displayName kept = Fork.displayName existing
       ∧ Fork.url kept = Fork.url existing
       ∧ Fork.image kept = Fork.image existing
       ∧ Fork.forkedAt kept = Fork.forkedAt existing
       ∧ Fork.readTime kept = Fork.readTime existing)
    ∧ (Fork.stars kept = Repo.stargazers_count repo
       ∧ Fork.forks kept = Repo.forks_count repo
       ∧ Fork.language kept = Repo.language repo
       ∧ Fork.updatedAt kept = formatDate w (Repo.updated_at repo))
    ∧ (∀ f, f ∈ forks doc → Fork.id f = Repo.id repo →
            Fork.summary f = Fork.summary existing)
    ∧ (∃ f, loadExistingArticles (forks_json st) !! Repo.id repo = Some f
            ∧ Fork.summary f = Fork.summary existing).
Proof.
  intros Hrepos Hin He Hgood.
  rewrite isFallbackArticle_acceptable, negb_false_iff in Hgood.
  destruct (main_output cfg w file repos Hrepos)
    as (st & gens & calls & Hmain & Hfile & _ & _ & Hall & _).
  destruct (good_records cfg w file repos repo existing gens Hin He Hgood Hall)
    as [Hkept Hsame].
  set (doc := makeOutput w _ _) in Hfile.
  assert (∀ f, f ∈ forks doc → Fork.id f = Repo.id repo →
               Fork.summary f = Fork.summary existing) as Hsame'.
  { intros f Hf. apply Hsame. unfold doc in Hf. by rewrite makeOutput_forks, elem_of_sort in Hf. }
  assert (preserve w (repo, existing) ∈ forks doc) as Hkept'.
  { unfold doc. by rewrite makeOutput_forks, elem_of_sort. }
  exists st, doc, (preserve w (repo, existing)).
  split_and!; try done.
  rewrite Hfile. apply loadExisting_all; [|done].
  exists (preserve w (repo, existing)). split; [done|].
  cbn [preserve Fork.id]. by apply loadExisting_id in He.
Qed.

(** C5, an instance: the article of the first repository is longer
    than 400 characters and free of denylist phrases. *)
Lemma good_article_is_kept_witness :
  fetchRepos keptWorld = inr (selectRepos (sampleRepos 2))
  ∧ Claimed.acceptable (Some article401) = true
  ∧ loadExistingArticles keptFile !! 1%Z = Some (sampleRecord 1 (Some article401))
  ∧ ∃ st doc kept,
      main CONFIG keptWorld (start keptFile) = (Resolved, st)
      ∧ forks_json st = Json doc
      ∧ kept ∈ forks doc
      ∧ Fork.summary kept = Some article401.
Proof.
  split_and!; [reflexivity| vm_compute; reflexivity | vm_compute; reflexivity |].
  assert (tagType (sampleRepo 1) ∈ take (reposToShow CONFIG) (selectRepos (sampleRepos 2)))
    as Hin.
  { vm_compute. apply list_elem_of_here. }
  destruct (good_article_is_kept CONFIG keptWorld keptFile (selectRepos (sampleRepos 2))
              (tagType (sampleRepo 1)) (sampleRecord 1 (Some article401))
              eq_refl Hin eq_refl (Claimed_acceptable_passes (Some article401) eq_refl))
    as (st & doc & kept & Hmain & Hfile & Hkept & _ & Hsummary & _).
  exists st, doc, kept. split_and!; [exact Hmain|exact Hfile|exact Hkept|exact Hsummary].
Defined.

(** ** Two runs in a row *)

Section TwoRuns.
Context (cfg : Config) (w : World) (file : File) (repos : list Repo.t).
Hypothesis Hrepos : fetchRepos w = inr repos.
Hypothesis Hdown : ∀ n req, completion w n req = Unreachable.

Let sel1 := select cfg (loadExistingArticles file) repos.
Let doc1 :=
  makeOutput w sel1 (List.map (preserve w) (hasArticle sel1)
                     ++ fallbackRecords w (batchToProcess sel1)).

Lemma first_run_document :
  ∃ st, main cfg w (start file) = (Resolved, st) ∧ forks_json st = Json doc1.
Proof.
  destruct (main_output cfg w file repos Hrepos)
    as (st & gens & calls & Hmain & Hfile & _ & _ & _ & _ & Hfb).
  rewrite (Hfb (onlyFallback_unreachable cfg w Hdown)) in Hfile.
  by exists st.
Qed.

Lemma fallbackRecords_batch :
  Forall2 (fun repo f =>
             ∃ j article, f = generated w j repo (fetchRepoDetails w repo) article)
          (batchToProcess sel1) (fallbackRecords w (batchToProcess sel1)).
Proof.
  unfold fallbackRecords. generalize (batchToProcess sel1). intros batch.
  apply Forall2_same_length_lookup. rewrite length_imap. split; [done|].
  intros i repo f Hrepo Hf. rewrite list_lookup_imap, Hrepo in Hf.
  simpl in Hf. simplify_eq. by eexists _, _.
Qed.

(** The feed the first run leaves classifies every repository as the
    feed before it did. *)
Lemma second_run_same_classification r :
  r ∈ take (reposToShow cfg) repos →
  hasGoodArticle (loadExistingArticles (Json doc1)) r
  = hasGoodArticle (loadExistingArticles file) r.
Proof.
  intros Hin. destruct (hasGoodArticle (loadExistingArticles file) r) eqn:Hgood.
  - unfold hasGoodArticle in Hgood.
    destruct (loadExistingArticles file !! Repo.id r) as [e|] eqn:He; [|done].
    destruct (good_records cfg w file repos r e _ Hin He Hgood fallbackRecords_batch)
      as [Hkept Hsame].
    destruct (loadExisting_all doc1 (Repo.id r)
                (fun f => Fork.summary f = Fork.summary e)) as (f & Hf & Hsum).
    + exists (preserve w (r, e)). split.
      * unfold doc1. by rewrite makeOutput_forks, elem_of_sort.
      * cbn [preserve Fork.id]. by apply loadExisting_id in He.
    + intros f Hf. apply Hsame. unfold doc1 in Hf.
      by rewrite makeOutput_forks, elem_of_sort in Hf.
    + unfold hasGoodArticle. by rewrite Hf, Hsum.
  - unfold hasGoodArticle at 1.
    destruct (loadExistingArticles (Json doc1) !! Repo.id r) as [f|] eqn:Hf; [|done].
    apply loadExisting_Some in Hf as (d & [= <-] & Hf & Hid).
    unfold doc1 in Hf. rewrite makeOutput_forks, elem_of_sort in Hf.
    apply (other_records cfg w file repos r _ f Hgood) in Hf; [|done].
    apply elem_of_lookup_imap in Hf as (i & repo & -> & _).
    cbn [generated Fork.summary].
    rewrite <- (negb_involutive (acceptable _)), <- isFallbackArticle_acceptable.
    by rewrite isFallbackArticle_bad by apply generateFallbackSummary_bad.
Qed.

Lemma second_run_needsGeneration :
  needsGeneration (select cfg (loadExistingArticles (Json doc1)) repos)
  = needsGeneration sel1.
Proof.
  unfold sel1. rewrite !select_needsGeneration. apply filter_ext_in.
  intros r Hin%list_elem_of_In. by rewrite second_run_same_classification.
Qed.

End TwoRuns.

(** C1, as the code has it.  For a repository list of which more need
    regeneration than the batch cap K allows, one run with an unreachable
    completion endpoint processes exactly K of them, filling them with the
    fallback article, and reports [pending = N_needing - K].  A second run
    under the same conditions finds the same repositories in need of
    regeneration, selects the same K again and reports the same pending
    count, so the feed is still not complete. *)
Theorem unreachable_runs_repeat_batch (cfg : Config) (w : World) (file : File)
    (repos : list Repo.t) :
  fetchRepos w = inr repos →
  (∀ n req, completion w n req = Unreachable) →
  let sel1 := select cfg (loadExistingArticles file) repos in
  batchSize cfg < length (needsGeneration sel1) →
  let first := runScript cfg w file in
  let sel2 := select cfg (loadExistingArticles (forks_json (final first))) repos in
  let second := runScript cfg w (forks_json (final first)) in
  ∃ doc1 doc2,
    documentOf first = Some doc1
    ∧ documentOf second = Some doc2
    ∧ exitCode first = 0%Z ∧ exitCode second = 0%Z
    ∧ length (batchToProcess sel1) = batchSize cfg
    ∧ forks doc1 ≡ₚ List.map (preserve w) (hasArticle sel1)
                    ++ fallbackRecords w (batchToProcess sel1)
    ∧ pending (progress doc1) = length (needsGeneration sel1) - batchSize cfg
    ∧ needsGeneration sel2 = needsGeneration sel1
    ∧ batchToProcess sel2 = batchToProcess sel1
    ∧ pending (progress doc2) = length (needsGeneration sel1) - batchSize cfg
    ∧ complete (progress doc2) = false.
Proof.
  intros Hrepos Hdown sel1 HK first sel2 second.
  destruct (first_run_document cfg w file repos Hrepos Hdown) as (st1 & Hmain1 & Hfile1).
  set (doc1 := makeOutput w _ _) in Hfile1.
  assert (final first = st1) as Hfirst.
  { subst first. unfold runScript. by rewrite Hmain1. }
  assert (forks_json (final first) = Json doc1) as Hjson by (by rewrite Hfirst).
  assert (needsGeneration sel2 = needsGeneration sel1) as Hneeds.
  { subst sel2. rewrite Hjson. by apply second_run_needsGeneration. }
  assert (batchToProcess sel2 = batchToProcess sel1) as Hbatch.
  { subst sel1 sel2. by rewrite !(select_batchToProcess cfg), Hneeds. }
  assert (length (batchToProcess sel1) = batchSize cfg) as Hlen.
  { subst sel1. rewrite (select_batchToProcess cfg), length_take. lia. }
  destruct (main_output cfg w (forks_json (final first)) repos Hrepos)
    as (st2 & gens2 & calls2 & Hmain2 & Hfile2 & _).
  fold sel2 in Hfile2. set (doc2 := makeOutput w sel2 _) in Hfile2.
  assert (pending (progress doc2) = length (needsGeneration sel1) - batchSize cfg) as Hpending.
  { unfold doc2. by rewrite makeOutput_pending, Hneeds, Hbatch, Hlen. }
  exists doc1, doc2. split_and!.
  - unfold documentOf. by rewrite Hjson.
  - subst second. unfold documentOf, runScript. rewrite Hmain2. cbn [final]. by rewrite Hfile2.
  - subst first. unfold runScript. by rewrite Hmain1.
  - subst second. unfold runScript. by rewrite Hmain2.
  - done.
  - unfold doc1. rewrite makeOutput_forks. apply sort_Permutation.
  - unfold doc1. rewrite makeOutput_pending. fold sel1. by rewrite Hlen.
  - done.
  - done.
  - done.
  - change (complete (progress doc2)) with (pending (progress doc2) =? 0).
    rewrite Hpending. apply Nat.eqb_neq. lia.
Qed.

(** C1, an instance: 51 repositories under the cap of 50. *)
Lemma unreachable_runs_repeat_batch_witness :
  fetchRepos offlineWorld = inr (selectRepos (sampleRepos 51))
  ∧ batchSize CONFIG < length (needsGeneration firstSelection)
  ∧ needsGeneration secondSelection = needsGeneration firstSelection.
Proof.
  assert (batchSize CONFIG < length (needsGeneration firstSelection)) as HK.
  { vm_compute. lia. }
  split_and!; [reflexivity|exact HK|].
  destruct (unreachable_runs_repeat_batch CONFIG offlineWorld NoFile
              (selectRepos (sampleRepos 51)) eq_refl (fun _ _ => eq_refl) HK)
    as (doc1 & doc2 & _ & _ & _ & _ & _ & _ & _ & Hneeds & _).
  exact Hneeds.
Defined.

(** C1, counterexample.  With 51 repositories, no feed, the cap of 50
    and an unreachable completion endpoint, the first run processes 50
    repositories and reports one pending; the second run does not process
    the remaining one and does not report [pending = 0]: it selects the
    same 50 again and reports one pending again. *)
Lemma second_run_counterexample :
  fetchRepos offlineWorld = inr (selectRepos (sampleRepos 51))
  ∧ length (needsGeneration firstSelection) = 51
  ∧ length (batchToProcess firstSelection) = 50
  ∧ (pending ∘ progress) <$> documentOf firstRun = Some 1
  ∧ List.map Repo.id (drop 50 (needsGeneration firstSelection)) = [51%Z]
  ∧ batchToProcess secondSelection = batchToProcess firstSelection
  ∧ (pending ∘ progress) <$> documentOf secondRun = Some 1
  ∧ ¬ (∃ doc1 doc2,
         documentOf firstRun = Some doc1
         ∧ documentOf secondRun = Some doc2
         ∧ Claimed.second_run_finishes firstSelection secondSelection doc1 doc2).
Proof.
  assert ((pending ∘ progress) <$> documentOf secondRun = Some 1) as Hsecond.
  { vm_compute. reflexivity. }
  split_and!; try (vm_compute; reflexivity).
  intros (doc1 & doc2 & _ & Hdoc2 & _ & Hpending).
  rewrite Hdoc2 in Hsecond. cbn in Hsecond. congruence.
Qed.

(** * Further properties of the scripts *)

(** ** Small helpers *)

Lemma includes_char_map (f : ascii → ascii) (c : ascii) (s : string) :
  (∀ x, f x ≠ c) → JS.includes (JS.map f s) (String c EmptyString) = false.
Proof.
  intros Hf. induction s as [|x s IH]; [done|].
  cbn [JS.map]. rewrite includes_cons. cbn [JS.startsWith].
  destruct (Ascii.eqb_spec c (f x)) as [->|_]; [by destruct (Hf x)|done].
Qed.

(** X1.  The display name has the length of the repository name and
    contains neither a dash nor an underscore; applying the replacement
    again changes nothing. *)
Theorem displayName_has_no_separators (name : string) :
  String.length (displayNameOf name) = String.length name
  ∧ JS.includes (displayNameOf name) "-" = false
  ∧ JS.includes (displayNameOf name) "_" = false
  ∧ displayNameOf (displayNameOf name) = displayNameOf name.
Proof.
  unfold displayNameOf, JS.replaceAll. split_and!.
  - induction name as [|c s IH]; [done|]. cbn [JS.map String.length]. by rewrite IH.
  - induction name as [|c s IH]; [done|].
    cbn [JS.map]. rewrite includes_cons. cbn [JS.startsWith]. rewrite IH.
    destruct (Ascii.eqb_spec c "-") as [->|Hc]; [done|].
    destruct (Ascii.eqb_spec c "_") as [->|Hc']; [done|].
    by destruct (Ascii.eqb_spec "-" c) as [<-|_].
  - apply includes_char_map. intros x. by destruct (Ascii.eqb_spec x "_") as [->|?].
  - induction name as [|c s IH]; [done|]. cbn [JS.map]. rewrite IH. f_equal.
    destruct (Ascii.eqb_spec c "-") as [->|Hc]; [done|].
    destruct (Ascii.eqb_spec c "_") as [->|Hc']; [done|].
    destruct (Ascii.eqb_spec c "-"); [done|]. by destruct (Ascii.eqb_spec c "_").
Qed.

(** X2.  Whatever the index, the image of a record is built from one
    of the twelve curated photo ids, and the choice repeats with period
    twelve. *)
Theorem unsplash_url_is_curated (index : nat) :
  (∃ photoId, photoId ∈ unsplashPhotos
              ∧ getRandomUnsplashUrl index
                = "https://images.unsplash.com/photo-" +:+ photoId
                  +:+ "?w=800&h=400&fit=crop&q=80")
  ∧ getRandomUnsplashUrl (index + 12) = getRandomUnsplashUrl index.
Proof.
  unfold getRandomUnsplashUrl. split.
  - destruct (lookup_lt_is_Some_2 unsplashPhotos (index mod length unsplashPhotos))
      as [photoId Hphoto].
    { apply Nat.mod_upper_bound. done. }
    exists photoId. rewrite Hphoto. split; [|done]. apply list_elem_of_lookup. eauto.
  - change (length unsplashPhotos) with 12.
    replace (index + 12) with (index + 1 * 12) by lia. by rewrite Nat.Div0.mod_add.
Qed.

Lemma space_runs_bound (s : string) (in_run : bool) :
  JS.space_runs in_run s ≤ String.length s.
Proof.
  revert in_run. induction s as [|c s IH]; intros in_run; [done|].
  cbn [JS.space_runs String.length]. destruct (JS.is_space c).
  - specialize (IH true). destruct in_run; lia.
  - specialize (IH false). lia.
Qed.

(** X3.  The read time is never below two minutes, it covers the
    words at 200 a minute, and an article of fewer than 400 characters is
    always given two minutes. *)
Theorem read_time_bounds (content : string) :
  2 ≤ estimateReadTime content
  ∧ JS.split_ws_length content ≤ 200 * estimateReadTime content
  ∧ (JS.split_ws_length content ≤ 400 → estimateReadTime content = 2)
  ∧ (String.length content < 400 → estimateReadTime content = 2).
Proof.
  unfold estimateReadTime.
  pose proof (space_runs_bound content false) as Hruns.
  assert (JS.split_ws_length content ≤ S (String.length content)) as Hwords.
  { unfold JS.split_ws_length. lia. }
  clear Hruns. generalize dependent (JS.split_ws_length content). intros words Hwords.
  pose proof (Nat.div_mod_eq (words + 199) 200) as Hdiv.
  pose proof (Nat.mod_upper_bound (words + 199) 200) as Hmod.
  split_and!; lia.
Qed.

Lemma read_time_bounds_witness :
  String.length (generateFallbackSummary (sampleRepo 1)) < 400
  ∧ estimateReadTime (generateFallbackSummary (sampleRepo 1)) = 2.
Proof.
  assert (String.length (generateFallbackSummary (sampleRepo 1)) < 400) as Hlen.
  { vm_compute. lia. }
  split; [exact Hlen|].
  exact (proj2 (proj2 (proj2 (read_time_bounds _))) Hlen).
Defined.

Lemma string_length_app (s t : string) :
  String.length (s +:+ t) = String.length s + String.length t.
Proof.
  induction s as [|c s IH]; [done|].
  change (String c s +:+ t) with (String c (s +:+ t)).
  cbn [String.length]. by rewrite IH.
Qed.

Lemma string_app_empty (s : string) : s +:+ "" = s.
Proof.
  induction s as [|c s IH]; [done|].
  change (String c s +:+ "") with (String c (s +:+ "")). by rewrite IH.
Qed.

Lemma substring_prefix (n : nat) (s : string) :
  String.length (String.substring 0 n s) = Nat.min n (String.length s)
  ∧ ∃ rest, s = String.substring 0 n s +:+ rest.
Proof.
  revert n. induction s as [|c s IH]; intros [|n]; cbn [String.substring String.length].
  - split; [done|]. by exists "".
  - split; [done|]. by exists "".
  - split; [done|]. by exists (String c s).
  - destruct (IH n) as [Hlen [rest Hrest]]. split; [by rewrite Hlen|].
    exists rest.
    change (String c (String.substring 0 n s) +:+ rest)
      with (String c (String.substring 0 n s +:+ rest)).
    by rewrite <- Hrest.
Qed.

(** X4.  [fetchReadme] yields no excerpt exactly when the request
    fails; an excerpt is the README cut after 4000 characters: a prefix of
    the text, never longer than 4000, and the whole text when that is
    short enough. *)
Theorem readme_excerpt_is_bounded_prefix (w : World) (repo : Repo.t) :
  (fetchReadme w repo = None ↔ readmeText w repo = None)
  ∧ ∀ text, readmeText w repo = Some text →
      ∃ excerpt rest,
        fetchReadme w repo = Some excerpt
        ∧ text = excerpt +:+ rest
        ∧ String.length excerpt = Nat.min 4000 (String.length text)
        ∧ String.length excerpt ≤ 4000
        ∧ (String.length text ≤ 4000 → excerpt = text).
Proof.
  unfold fetchReadme. split.
  - by destruct (readmeText w repo).
  - intros text ->. destruct (substring_prefix 4000 text) as [Hlen [rest Hrest]].
    exists (String.substring 0 4000 text), rest. split_and!; [done|done|done|lia|].
    intros Hshort. rewrite Nat.min_r in Hlen by done.
    assert (String.length rest = 0) as Hnil.
    { apply (f_equal String.length) in Hrest.
      rewrite string_length_app in Hrest. lia. }
    destruct rest; [|done]. rewrite Hrest at 2. by rewrite string_app_empty.
Qed.

Lemma readme_excerpt_is_bounded_prefix_witness :
  readmeText (sampleWorld None [] unreachable) (sampleRepo 1) = None
  ∧ fetchReadme (sampleWorld None [] unreachable) (sampleRepo 1) = None.
Proof.
  split; [reflexivity|].
  apply (readme_excerpt_is_bounded_prefix (sampleWorld None [] unreachable) (sampleRepo 1)).
  reflexivity.
Defined.

(** X5.  [fetchRepoTree] yields at most thirty paths, each the path of
    a blob entry of the tree, and no path when the request fails. *)
Theorem repo_tree_is_bounded (w : World) (repo : Repo.t) :
  length (fetchRepoTree w repo) ≤ 30
  ∧ (∀ path, path ∈ fetchRepoTree w repo →
       ∃ tree entry, gitTree w repo = Some tree ∧ entry ∈ tree
                     ∧ entry_type entry = "blob" ∧ entry_path entry = path)
  ∧ (gitTree w repo = None → fetchRepoTree w repo = []).
Proof.
  unfold fetchRepoTree. destruct (gitTree w repo) as [tree|]; split_and!.
  - rewrite length_take. lia.
  - intros path Hin. apply elem_of_take in Hin as (i & Hi & _).
    assert (path ∈ List.map entry_path
              (List.filter (fun f => String.eqb (entry_type f) "blob") tree)) as Hpath.
    { apply list_elem_of_lookup. eauto. }
    apply list_elem_of_fmap in Hpath as (entry & -> & Hentry).
    apply list_elem_of_In, filter_In in Hentry as [Hentry Hblob].
    exists tree, entry. split_and!; [done|by apply list_elem_of_In|by apply String.eqb_eq|done].
  - done.
  - simpl. lia.
  - intros path Hin. by apply elem_of_nil in Hin.
  - done.
Qed.

Lemma repo_tree_is_bounded_witness :
  gitTree (sampleWorld None [] unreachable) (sampleRepo 1) = None
  ∧ fetchRepoTree (sampleWorld None [] unreachable) (sampleRepo 1) = [].
Proof.
  split; [reflexivity|].
  apply (repo_tree_is_bounded (sampleWorld None [] unreachable) (sampleRepo 1)).
  reflexivity.
Defined.

(** ** Pagination *)

Lemma fetchPages_full (fulls rest : list PageResponse) (acc : list Repo.t) :
  Forall (fun p => fullPage p = true) fulls →
  fetchPages (fulls ++ rest) acc = fetchPages rest (acc ++ concat (List.map pageRepos fulls)).
Proof.
  intros Hfull. revert acc. induction Hfull as [|p fulls Hp _ IH]; intros acc.
  { simpl. by rewrite app_nil_r. }
  destruct p as [|status repos]; [done|].
  apply andb_true_iff in Hp as [Hok Hlen%Nat.leb_le].
  cbn [app fetchPages]. rewrite Hok. cbn [negb].
  destruct (Nat.eqb_spec (length repos) 0) as [Hz|_]; [lia|].
  destruct (Nat.ltb_spec (length repos) 100) as [Hlt|_]; [lia|].
  rewrite IH. cbn [List.map concat pageRepos]. by rewrite app_assoc.
Qed.

(** X6.  [fetchRepos] follows the pages while they are full (a
    success with at least 100 entries): the listing is the concatenation
    of the full pages and of the first page with fewer than 100 entries,
    whatever comes after it; a page answered with a status outside 200-299
    or not answered at all makes the listing fail with that error, however
    many pages were read before. *)
Theorem pagination_collects_until_short_page (fulls rest : list PageResponse)
    (status : Z) (repos : list Repo.t) :
  Forall (fun p => fullPage p = true) fulls →
  (response_ok status = true → length repos < 100 →
     fetchPages (fulls ++ PageHttp status repos :: rest) []
     = inr (concat (List.map pageRepos fulls) ++ repos))
  ∧ (response_ok status = false →
       fetchPages (fulls ++ PageHttp status repos :: rest) []
       = inl (GitHubAPIError status))
  ∧ fetchPages (fulls ++ PageUnreachable :: rest) [] = inl FetchFailed
  ∧ fetchPages fulls [] = inr (concat (List.map pageRepos fulls)).
Proof.
  intros Hfull. split_and!.
  - intros Hok Hshort. rewrite (fetchPages_full _ _ _ Hfull).
    cbn [fetchPages app]. rewrite Hok. cbn [negb].
    destruct (Nat.eqb_spec (length repos) 0) as [Hz|_].
    + destruct repos; [|done]. by rewrite app_nil_r.
    + by destruct (Nat.ltb_spec (length repos) 100) as [_|?]; [|lia].
  - intros Hbad. rewrite (fetchPages_full _ _ _ Hfull). cbn [fetchPages]. by rewrite Hbad.
  - by rewrite (fetchPages_full _ _ _ Hfull).
  - rewrite <- (app_nil_r fulls) at 1. by rewrite (fetchPages_full _ _ _ Hfull).
Qed.

Lemma pagination_collects_until_short_page_witness :
  Forall (fun p => fullPage p = true) [PageHttp 200 (sampleRepos 100)]
  ∧ fetchPages ([PageHttp 200 (sampleRepos 100)]
                ++ PageHttp 200 (sampleRepos 2) :: [PageHttp 200 (sampleRepos 7)]) []
    = inr (concat (List.map pageRepos [PageHttp 200 (sampleRepos 100)]) ++ sampleRepos 2).
Proof.
  assert (Forall (fun p => fullPage p = true) [PageHttp 200 (sampleRepos 100)]) as Hfull.
  { by repeat constructor. }
  split; [exact Hfull|].
  apply (pagination_collects_until_short_page _ _ 200%Z (sampleRepos 2) Hfull);
    [reflexivity | vm_compute; lia].
Defined.

(** ** The persisted feed, read back *)

Lemma last_cons_default {A} (x : A) (l : list A) :
  last (x :: l) = Some (default x (last l)).
Proof.
  revert x. induction l as [|y l IH]; intros x; [done|].
  by rewrite last_cons_cons, !IH.
Qed.

Lemma index_lookup_last (records : list Fork.t) : ∀ (existing : gmap Z Fork.t) k,
  foldl (fun (existing : gmap Z Fork.t) fork => <[Fork.id fork := fork]> existing)
        existing records !! k
  = match lastWithId k records with
    | Some f => Some f
    | None => existing !! k
    end.
Proof.
  unfold lastWithId.
  induction records as [|r records IH]; intros existing k; [done|].
  cbn [foldl List.filter]. rewrite IH.
  destruct (Z.eqb_spec (Fork.id r) k) as [Hk|Hk].
  - rewrite last_cons_default.
    destruct (last (List.filter _ records)); [done|].
    simpl. by rewrite <- Hk, lookup_insert_eq.
  - destruct (last (List.filter _ records)); [done|]. by rewrite lookup_insert_ne.
Qed.

(** X7.  [loadExistingArticles] indexes the persisted records by id:
    looking an id up yields the last record of the feed with that id, and
    nothing when there is none; a missing or unreadable file gives the
    empty index. *)
Theorem existing_articles_last_record_wins (file : File) (k : Z) :
  loadExistingArticles file !! k
  = match file with
    | Json data => lastWithId k (forks data)
    | _ => None
    end.
Proof.
  destruct file as [| |data]; [apply lookup_empty|apply lookup_empty|].
  unfold loadExistingArticles. rewrite index_lookup_last, lookup_empty.
  by destruct (lastWithId k (forks data)).
Qed.

(** ** Rotation order *)

Lemma getNextModel_loop_first (models : list string) (limits : gmap string bool)
    (cur : nat) : ∀ steps i model next,
  getNextModel_loop models limits cur i steps = Some (model, next) →
  ∃ j, i ≤ j < i + steps
       ∧ models !! ((cur + j) mod length models) = Some model
       ∧ rateLimited limits model = false
       ∧ next = (cur + j + 1) mod length models
       ∧ ∀ j', i ≤ j' < j →
           ∃ m, models !! ((cur + j') mod length models) = Some m
                ∧ rateLimited limits m = true.
Proof.
  induction steps as [|steps IH]; intros i model next; cbn [getNextModel_loop]; [done|].
  destruct (models !! _) as [m|] eqn:Hm; [|done].
  destruct (rateLimited limits m) eqn:Hr; cbn [negb].
  - intros H. apply IH in H as (j & Hj & Hat & Hfree & Hnext & Hbefore).
    exists j. split_and!; [lia|lia|done|done|done|].
    intros j' Hj'. destruct (decide (j' = i)) as [->|Hne]; [eauto|].
    apply Hbefore. lia.
  - intros [= <- <-]. exists i. split_and!; [lia|lia|done|done|done|].
    intros j' Hj'. lia.
Qed.

Lemma getNextModel_loop_all_marked (models : list string) (limits : gmap string bool)
    (cur : nat) :
  0 < length models →
  ∀ steps i,
    getNextModel_loop models limits cur i steps = None →
    ∀ j, i ≤ j < i + steps →
      ∃ m, models !! ((cur + j) mod length models) = Some m
           ∧ rateLimited limits m = true.
Proof.
  intros Hlen. induction steps as [|steps IH]; intros i; cbn [getNextModel_loop].
  { intros _ j Hj. lia. }
  destruct (lookup_lt_is_Some_2 models ((cur + i) mod length models)) as [m Hm].
  { apply Nat.mod_upper_bound. lia. }
  rewrite Hm. destruct (rateLimited limits m) eqn:Hr; cbn [negb]; [|done].
  intros H j Hj. destruct (decide (j = i)) as [->|Hne]; [eauto|].
  apply (IH (S i) H). lia.
Qed.

Lemma cyclic_cover (cur len k : nat) :
  k < len → ∃ j, j < len ∧ (cur + j) mod len = k.
Proof.
  intros Hk. pose proof (Nat.mod_upper_bound cur len) as Hc.
  destruct (Nat.le_gt_cases (cur mod len) k) as [Hle|Hgt].
  - exists (k - cur mod len). split; [lia|].
    rewrite <- Nat.Div0.add_mod_idemp_l.
    replace (cur mod len + (k - cur mod len)) with k by lia. by apply Nat.mod_small.
  - exists (len - cur mod len + k). split; [lia|].
    rewrite <- Nat.Div0.add_mod_idemp_l.
    replace (cur mod len + (len - cur mod len + k)) with (k + 1 * len) by lia.
    rewrite Nat.Div0.mod_add. by apply Nat.mod_small.
Qed.

(** X8.  [getNextModel] returns the first model, in the cyclic order
    of the list starting at [currentModelIndex], that is not marked as
    rate limited, and moves [currentModelIndex] just past it; the new index
    is a position of the list; nothing else of the state changes. *)
Theorem rotation_picks_first_unmarked (cfg : Config) (st st1 : ProcState)
    (model : string) :
  getNextModel cfg st = (Some model, st1) →
  ∃ j, j < length (available cfg)
       ∧ modelAt cfg (currentModelIndex st + j) = Some model
       ∧ rateLimited (modelRateLimits st) model = false
       ∧ (∀ j', j' < j →
            ∃ m, modelAt cfg (currentModelIndex st + j') = Some m
                 ∧ rateLimited (modelRateLimits st) m = true)
       ∧ currentModelIndex st1
         = (currentModelIndex st + j + 1) mod length (available cfg)
       ∧ currentModelIndex st1 < length (available cfg)
       ∧ modelRateLimits st1 = modelRateLimits st
       ∧ trace st1 = trace st
       ∧ forks_json st1 = forks_json st.
Proof.
  unfold getNextModel, modelAt.
  destruct (getNextModel_loop _ _ _ _ _) as [[m next]|] eqn:Hloop; [|done].
  intros [= -> <-].
  apply getNextModel_loop_first in Hloop as (j & Hj & Hat & Hfree & -> & Hbefore).
  exists j. split_and!; [lia|done|done| |done| |done|done|done].
  - intros j' Hj'. apply Hbefore. lia.
  - cbn [currentModelIndex set_currentModelIndex]. apply Nat.mod_upper_bound. lia.
Qed.

Lemma rotation_picks_first_unmarked_witness :
  getNextModel CONFIG (markRateLimited "gpt-4o-mini" (set_currentModelIndex 1 (start NoFile)))
  = (Some "gpt-4.1",
     set_currentModelIndex 0
       (markRateLimited "gpt-4o-mini" (set_currentModelIndex 1 (start NoFile))))
  ∧ ∃ j, j < 3
         ∧ modelAt CONFIG (1 + j) = Some "gpt-4.1"
         ∧ ∀ j', j' < j →
             ∃ m, modelAt CONFIG (1 + j') = Some m
                  ∧ rateLimited (<["gpt-4o-mini" := true]> ∅) m = true.
Proof.
  split; [reflexivity|].
  destruct (rotation_picks_first_unmarked CONFIG
              (markRateLimited "gpt-4o-mini" (set_currentModelIndex 1 (start NoFile)))
              _ "gpt-4.1" eq_refl)
    as (j & Hj & Hat & _ & Hbefore & _).
  exists j. split_and!; [exact Hj|exact Hat|exact Hbefore].
Defined.

Lemma getNextModel_None_all_marked (cfg : Config) (st st1 : ProcState) :
  getNextModel cfg st = (None, st1) →
  ∀ m, m ∈ available cfg → rateLimited (modelRateLimits st) m = true.
Proof.
  unfold getNextModel.
  destruct (getNextModel_loop _ _ _ _ _) as [[m next]|] eqn:Hloop; [done|].
  intros _ m Hin. apply list_elem_of_lookup in Hin as [k Hk].
  assert (k < length (available cfg)) as Hlt by (by eapply lookup_lt_Some).
  destruct (cyclic_cover (currentModelIndex st) _ k Hlt) as (j & Hj & Hjk).
  assert (0 < length (available cfg)) as Hpos by lia.
  assert (0 ≤ j < 0 + length (available cfg)) as Hrange by lia.
  destruct (getNextModel_loop_all_marked _ _ _ Hpos _ _ Hloop j Hrange)
    as (m' & Hm' & Hmarked).
  rewrite Hjk, Hk in Hm'. by simplify_eq.
Qed.

(** X9.  [getNextModel] returns [null] exactly when every model of
    the list is marked as rate limited, and then leaves the state as it
    is. *)
Theorem rotation_null_iff_all_marked (cfg : Config) (st : ProcState) :
  ((getNextModel cfg st).1 = None
   ↔ ∀ m, m ∈ available cfg → rateLimited (modelRateLimits st) m = true)
  ∧ ((getNextModel cfg st).1 = None → (getNextModel cfg st).2 = st).
Proof.
  split; [split|].
  - destruct (getNextModel cfg st) as [[m|] st1] eqn:Hnext; [done|].
    intros _. by eapply getNextModel_None_all_marked.
  - intros Hall. by rewrite (getNextModel_exhausted cfg st Hall).
  - destruct (getNextModel cfg st) as [[m|] st1] eqn:Hnext; [done|].
    intros _. by apply getNextModel_None in Hnext.
Qed.

(** ** Requests of a run *)

Lemma completionCalls_writeFileSync (output : FeedDocument) (st : ProcState) :
  completionCalls (writeFileSync output st) = completionCalls st.
Proof.
  unfold completionCalls. cbn [trace writeFileSync].
  rewrite filter_app, length_app. simpl. lia.
Qed.

Lemma generateBlogArticle_rec_potential (cfg : Config) (w : World) :
  ∀ depth repo readme fileTree st a st',
    generateBlogArticle_rec depth cfg w repo readme fileTree st = Some (a, st') →
    completionCalls st' + unmarked cfg st' ≤ completionCalls st + unmarked cfg st + 1.
Proof.
  induction depth as [|depth IH]; intros repo readme fileTree st a st'; [done|].
  cbn [generateBlogArticle_rec].
  destruct (negb _); [intros [= <- <-]; lia|].
  destruct (getNextModel cfg st) as [[model|] st1] eqn:Hnext.
  2:{ apply getNextModel_None in Hnext as ->. intros [= <- <-]. lia. }
  apply getNextModel_Some in Hnext as (Hin & Hfree & _ & Hlim & Htr).
  set (req := {| req_model := model; req_repo := repo;
                 req_readme := readme; req_fileTree := fileTree |}).
  assert (completionCalls (emit (CompletionCall req) st1)
          + unmarked cfg (emit (CompletionCall req) st1)
          = completionCalls st + unmarked cfg st + 1) as Hone.
  { rewrite completionCalls_emit, (completionCalls_trace st st1) by done.
    change (unmarked cfg (emit (CompletionCall req) st1)) with (unmarked cfg st1).
    rewrite (unmarked_eq cfg st st1 Hlim). lia. }
  destruct (completion w _ req) as [|status text content]; [intros [= <- <-]; lia|].
  destruct (negb (response_ok status)).
  - destruct (status =? 429)%Z; [|intros [= <- <-]; lia].
    intros Hrec. apply IH in Hrec.
    pose proof (unmarked_mark_lt cfg (emit (CompletionCall req) st1) model Hin) as Hdec.
    cbn [modelRateLimits emit] in Hdec. rewrite Hlim in Hdec. specialize (Hdec Hfree).
    change (completionCalls (markRateLimited model (emit (CompletionCall req) st1)))
      with (completionCalls (emit (CompletionCall req) st1)) in Hrec.
    lia.
  - destruct content as [article|]; [|intros [= <- <-]; lia].
    destruct (_ && _); intros [= <- <-]; lia.
Qed.

Lemma processBatch_potential (cfg : Config) (w : World) (batch : list Repo.t) :
  ∀ i ls st,
    completionCalls (processBatch cfg w i batch ls st).2
    + unmarked cfg (processBatch cfg w i batch ls st).2
    ≤ completionCalls st + unmarked cfg st + length batch.
Proof.
  induction batch as [|repo rest IH]; intros i ls st; cbn [processBatch length]; [simpl; lia|].
  unfold tryGenerate. destruct (rateLimitHit ls).
  { etrans; [apply IH|]. lia. }
  destruct (generateBlogArticle_spec cfg w (fetchRepoDetails w repo) (fetchReadme w repo)
              (fetchRepoTree w repo) st) as (a & st' & Hrec & -> & _).
  apply generateBlogArticle_rec_potential in Hrec.
  destruct (JS.truthy a); (etrans; [apply IH|]); lia.
Qed.

(** X10.  Whatever the services answer, one run sends at most one
    completion request per repository of the batch plus one per configured
    model, so never more than [batchSize + available.length] (53 with
    [CONFIG]). *)
Theorem run_request_budget (cfg : Config) (w : World) (file : File) :
  completionCalls (main cfg w (start file)).2 ≤ batchSize cfg + length (available cfg)
  ∧ batchSize CONFIG + length (available CONFIG) = 53.
Proof.
  split; [|done]. destruct (fetchRepos w) as [err|repos] eqn:Hrepos.
  - rewrite (main_rejected cfg w _ err Hrepos). cbn [snd].
    change (completionCalls (start file)) with 0. lia.
  - rewrite (main_resolved cfg w _ repos Hrepos). cbn [snd].
    rewrite completionCalls_writeFileSync.
    set (sel := select cfg _ repos).
    pose proof (processBatch_potential cfg w (batchToProcess sel) 0
                  (preserved w (hasArticle sel)) (start file)) as Hpot.
    pose proof (unmarked_bound cfg (start file)) as Hbound.
    assert (length (batchToProcess sel) ≤ batchSize cfg) as Hcap.
    { subst sel. rewrite select_batchToProcess, length_take. lia. }
    change (completionCalls (start file)) with 0 in Hpot. lia.
Qed.

Lemma processBatch_tripped (cfg : Config) (w : World) (batch : list Repo.t) :
  ∀ i ls st,
    rateLimitHit ls = true →
    (processBatch cfg w i batch ls st).2 = st
    ∧ acc_forks (processBatch cfg w i batch ls st).1
      = acc_forks ls
        ++ imap (fun j repo =>
                   generated w (i + j) repo (fetchRepoDetails w repo)
                             (generateFallbackSummary repo)) batch.
Proof.
  induction batch as [|repo rest IH]; intros i ls st Hhit; cbn [processBatch].
  { by rewrite app_nil_r. }
  unfold tryGenerate. rewrite Hhit.
  destruct (IH (S i) (push (generated w i repo (fetchRepoDetails w repo)
                              (JS.str_or None (generateFallbackSummary repo))) ls) st Hhit)
    as [-> ->].
  split; [done|]. cbn [acc_forks push JS.str_or]. rewrite <- app_assoc. simpl.
  rewrite Nat.add_0_r. do 2 f_equal. apply imap_ext. intros j r _. simpl.
  by rewrite Nat.add_succ_r.
Qed.

(** X11.  Once the loop has seen three failures in a row
    ([rateLimitHit]), it sends no further request for the rest of the
    batch: the process state stays as it is and every remaining repository
    gets the fallback article. *)
Theorem breaker_stops_requests (cfg : Config) (w : World) (batch : list Repo.t)
    (i : nat) (ls : Loop) (st : ProcState) :
  rateLimitHit ls = true →
  (processBatch cfg w i batch ls st).2 = st
  ∧ completionCalls (processBatch cfg w i batch ls st).2 = completionCalls st
  ∧ acc_forks (processBatch cfg w i batch ls st).1
    = acc_forks ls
      ++ imap (fun j repo =>
                 generated w (i + j) repo (fetchRepoDetails w repo)
                           (generateFallbackSummary repo)) batch.
Proof.
  intros Hhit. destruct (processBatch_tripped cfg w batch i ls st Hhit) as [Hst Hacc].
  by rewrite Hst.
Qed.

Lemma breaker_stops_requests_witness :
  rateLimitHit {| acc_forks := []; aiCallCount := 3; consecutiveRateLimits := 3;
                  aiSuccessCount := 0; rateLimitHit := true |} = true
  ∧ (processBatch CONFIG helpfulWorld 3 (sampleRepos 2)
       {| acc_forks := []; aiCallCount := 3; consecutiveRateLimits := 3;
          aiSuccessCount := 0; rateLimitHit := true |} (start NoFile)).2
    = start NoFile.
Proof.
  split; [reflexivity|].
  apply (breaker_stops_requests CONFIG helpfulWorld (sampleRepos 2) 3
           {| acc_forks := []; aiCallCount := 3; consecutiveRateLimits := 3;
              aiSuccessCount := 0; rateLimitHit := true |} (start NoFile)).
  reflexivity.
Defined.

Section Unreachable.
Context (cfg : Config) (w : World).
Hypothesis Htok : JS.truthy (GITHUB_TOKEN w) = true.
Hypothesis Hdown : ∀ n req, completion w n req = Unreachable.
Hypothesis Hmodels : available cfg ≠ [].

Lemma unreachable_call repo readme fileTree st :
  (∀ m, rateLimited (modelRateLimits st) m = false) →
  ∃ st', generateBlogArticle cfg w repo readme fileTree st = (None, st')
         ∧ completionCalls st' = S (completionCalls st)
         ∧ modelRateLimits st' = modelRateLimits st.
Proof.
  intros Hfree. unfold generateBlogArticle. cbn [generateBlogArticle_rec].
  rewrite Htok. cbn [negb].
  destruct (getNextModel cfg st) as [[model|] st1] eqn:Hnext.
  - apply getNextModel_Some in Hnext as (_ & _ & _ & Hlim & Htr).
    rewrite Hdown. eexists. split_and!; [done| |done].
    by rewrite completionCalls_emit, (completionCalls_trace st st1).
  - destruct (available cfg) as [|m models] eqn:Hav; [done|].
    pose proof (getNextModel_None_all_marked cfg st st1 Hnext m) as Hmarked.
    rewrite Hav in Hmarked. rewrite Hfree in Hmarked.
    by specialize (Hmarked (list_elem_of_here _ _)).
Qed.

Lemma unreachable_batch (batch : list Repo.t) : ∀ i ls st,
  (∀ m, rateLimited (modelRateLimits st) m = false) →
  rateLimitHit ls = false →
  consecutiveRateLimits ls < 3 →
  completionCalls (processBatch cfg w i batch ls st).2
  = completionCalls st + Nat.min (3 - consecutiveRateLimits ls) (length batch).
Proof.
  induction batch as [|repo rest IH]; intros i ls st Hfree Hhit Hcount;
    cbn [processBatch length]; [simpl; lia|].
  unfold tryGenerate. rewrite Hhit.
  destruct (unreachable_call (fetchRepoDetails w repo) (fetchReadme w repo)
              (fetchRepoTree w repo) st Hfree) as (st' & -> & Hcalls & Hlim).
  cbn [JS.truthy].
  destruct (Nat.leb_spec 3 (S (consecutiveRateLimits ls))) as [Htrip|Hgo].
  - match goal with
    | |- context [processBatch cfg w (S i) rest ?l st'] =>
        destruct (processBatch_tripped cfg w rest (S i) l st' eq_refl) as [-> _]
    end.
    rewrite Hcalls. lia.
  - rewrite IH; [| |done|].
    + cbn [consecutiveRateLimits push]. rewrite Hcalls. lia.
    + intros m. by rewrite Hlim.
    + cbn [consecutiveRateLimits push]. lia.
Qed.

End Unreachable.

(** X12.  With a token, at least one configured model and a
    completion endpoint that cannot be reached, a run gives up after three
    attempts: it sends a request for each of the first three repositories
    of the batch and none for the others. *)
Theorem unreachable_run_tries_three_times (cfg : Config) (w : World) (file : File)
    (repos : list Repo.t) :
  JS.truthy (GITHUB_TOKEN w) = true →
  (∀ n req, completion w n req = Unreachable) →
  available cfg ≠ [] →
  fetchRepos w = inr repos →
  completionCalls (main cfg w (start file)).2
  = Nat.min 3 (length (batchToProcess (select cfg (loadExistingArticles file) repos))).
Proof.
  intros Htok Hdown Hmodels Hrepos.
  rewrite (main_resolved cfg w _ repos Hrepos). cbn [snd].
  rewrite completionCalls_writeFileSync.
  rewrite (unreachable_batch cfg w Htok Hdown Hmodels); [done| |done|simpl; lia].
  intros m. unfold rateLimited. cbn [modelRateLimits start]. by rewrite lookup_empty.
Qed.

Lemma unreachable_run_tries_three_times_witness :
  fetchRepos offlineWorld = inr (selectRepos (sampleRepos 51))
  ∧ completionCalls (main CONFIG offlineWorld (start NoFile)).2
    = Nat.min 3 (length (batchToProcess firstSelection)).
Proof.
  split; [reflexivity|].
  apply (unreachable_run_tries_three_times CONFIG offlineWorld NoFile
           (selectRepos (sampleRepos 51)) eq_refl (fun _ _ => eq_refl)).
  - discriminate.
  - reflexivity.
Defined.

Lemma generateBlogArticle_rec_accepted (cfg : Config) (w : World) :
  JS.truthy (GITHUB_TOKEN w) = true →
  ∀ depth repo readme fileTree st article st',
    generateBlogArticle_rec depth cfg w repo readme fileTree st = Some (Some article, st') →
    400 < String.length article
    ∧ ∃ req pre status text,
        trace st' = pre ++ [CompletionCall req]
        ∧ req_repo req = repo ∧ req_readme req = readme ∧ req_fileTree req = fileTree
        ∧ req_model req ∈ available cfg
        ∧ rateLimited (modelRateLimits st') (req_model req) = false
        ∧ completion w (completionCalls st' - 1) req = Http status text (Some article)
        ∧ response_ok status = true.
Proof.
  intros Htok.
  induction depth as [|depth IH]; intros repo readme fileTree st article st'; [done|].
  cbn [generateBlogArticle_rec]. rewrite Htok. cbn [negb].
  destruct (getNextModel cfg st) as [[model|] st1] eqn:Hnext; [|done].
  apply getNextModel_Some in Hnext as (Hin & Hfree & _ & Hlim & Htr).
  set (req := {| req_model := model; req_repo := repo;
                 req_readme := readme; req_fileTree := fileTree |}).
  destruct (completion w _ req) as [|status text content] eqn:Hresp; [done|].
  destruct (response_ok status) eqn:Hok; cbn [negb].
  - destruct content as [a|]; [|done].
    destruct (JS.truthy (Some a) && (400 <? String.length a)) eqn:Hlen; [|done].
    intros [= <- <-]. apply andb_true_iff in Hlen as [_ Hlen%Nat.ltb_lt].
    split; [done|]. exists req, (trace st1), status, text.
    split_and!; try done.
    + cbn [modelRateLimits emit req_model req]. by rewrite Hlim.
    + rewrite completionCalls_emit. by replace (S (completionCalls st1) - 1)
        with (completionCalls st1) by lia.
  - destruct (status =? 429)%Z; [|done]. apply IH.
Qed.

(** X13.  With a token, an article that [generateBlogArticle] returns
    is the content of the answer to the last request the call sent, a
    success for the repository at hand from a configured model that is not
    marked as rate limited; it is longer than 400 characters, so the
    quality check of a later run can only reject it for a denylist
    phrase. *)
Theorem accepted_article_is_last_answer (cfg : Config) (w : World) (repo : Repo.t)
    (readme : option string) (fileTree : list string) (st st' : ProcState)
    (article : string) :
  JS.truthy (GITHUB_TOKEN w) = true →
  generateBlogArticle cfg w repo readme fileTree st = (Some article, st') →
  400 < String.length article
  ∧ isFallbackArticle (Some article) = hasBadPhrase article
  ∧ ∃ req pre status text,
      trace st' = pre ++ [CompletionCall req]
      ∧ req_repo req = repo ∧ req_readme req = readme ∧ req_fileTree req = fileTree
      ∧ req_model req ∈ available cfg
      ∧ rateLimited (modelRateLimits st') (req_model req) = false
      ∧ completion w (completionCalls st' - 1) req = Http status text (Some article)
      ∧ response_ok status = true.
Proof.
  intros Htok Hgen. unfold generateBlogArticle in Hgen.
  destruct (generateBlogArticle_rec _ cfg w repo readme fileTree st)
    as [[a st'']|] eqn:Hrec; [|done].
  simplify_eq.
  destruct (generateBlogArticle_rec_accepted cfg w Htok _ _ _ _ _ _ _ Hrec) as [Hlen Hreq].
  split_and!; [done| |done].
  unfold isFallbackArticle. destruct article as [|c s]; [simpl in Hlen; lia|].
  cbn [JS.truthy negb orb].
  by destruct (Nat.ltb_spec (String.length (String c s)) 400) as [?|_]; [lia|].
Qed.

Lemma accepted_article_is_last_answer_witness :
  JS.truthy (GITHUB_TOKEN helpfulWorld) = true
  ∧ generateBlogArticle CONFIG helpfulWorld (sampleRepo 1) None [] (start NoFile)
    = (Some article401,
       emit (CompletionCall firstRequest) (set_currentModelIndex 1 (start NoFile)))
  ∧ 400 < String.length article401.
Proof.
  assert (generateBlogArticle CONFIG helpfulWorld (sampleRepo 1) None [] (start NoFile)
          = (Some article401,
             emit (CompletionCall firstRequest) (set_currentModelIndex 1 (start NoFile))))
    as Hgen by (vm_compute; reflexivity).
  split_and!; [reflexivity|exact Hgen|].
  exact (proj1 (accepted_article_is_last_answer CONFIG helpfulWorld (sampleRepo 1) None []
                  (start NoFile) _ article401 eq_refl Hgen)).
Defined.

(** ** The written feed *)

Lemma List_filter_sublist {A} (f : A → bool) (l : list A) : List.filter f l `sublist_of` l.
Proof.
  induction l as [|x l IH]; [constructor|]. cbn [List.filter].
  destruct (f x); by constructor.
Qed.

Lemma List_filter_length_Permutation {A} (f : A → bool) (l k : list A) :
  l ≡ₚ k → length (List.filter f l) = length (List.filter f k).
Proof.
  induction 1 as [|x l k _ IH|x y l|l k m _ IH1 _ IH2]; cbn [List.filter]; [done| | |lia].
  - destruct (f x); simpl; lia.
  - destruct (f x), (f y); simpl; lia.
Qed.

Lemma hasArticle_repos (existing : gmap Z Fork.t) (repos : list Repo.t) :
  List.map fst (classify existing repos).1 = List.filter (hasGoodArticle existing) repos.
Proof.
  rewrite classify_hasArticle. induction repos as [|r l IH]; [done|].
  cbn [omap list_omap List.filter]. unfold hasGoodArticle in *.
  destruct (existing !! Repo.id r) as [e|]; [|done].
  destruct (acceptable (Fork.summary e)); [|done]. cbn [List.map fst]. by rewrite <- IH.
Qed.

Section Feed.
Context (cfg : Config) (w : World) (file : File) (repos : list Repo.t).
Hypothesis Hrepos : fetchRepos w = inr repos.

Let sel := select cfg (loadExistingArticles file) repos.

Lemma preserved_ids :
  List.map Fork.id (List.map (preserve w) (hasArticle sel))
  = List.map Repo.id (List.map fst (hasArticle sel)).
Proof.
  assert (∀ entry, entry ∈ hasArticle sel →
            Fork.id (preserve w entry) = Repo.id entry.1) as Hids.
  { intros [r e] Hin.
    by destruct (hasArticle_entry cfg w file repos r e Hin) as (_ & _ & _ & ? & _). }
  induction (hasArticle sel) as [|entry l IH]; [done|].
  cbn [List.map]. rewrite Hids by apply list_elem_of_here.
  rewrite IH; [done|]. intros e He. apply Hids. by apply list_elem_of_further.
Qed.

Lemma generated_ids (batch : list Repo.t) (gens : list Fork.t) :
  Forall2 (fun repo f =>
             ∃ j article, f = generated w j repo (fetchRepoDetails w repo) article)
          batch gens →
  List.map Fork.id gens = List.map Repo.id batch.
Proof.
  induction 1 as [|repo f batch gens (j & article & ->) _ IH]; [done|].
  cbn [List.map]. by rewrite IH.
Qed.

Lemma selection_lengths :
  length (hasArticle sel) + length (needsGeneration sel) = length (recentRepos sel).
Proof.
  unfold sel. rewrite select_hasArticle, select_needsGeneration, select_recentRepos.
  rewrite <- (length_map fst), hasArticle_repos. apply filter_length.
Qed.

(** The feed of a run that gets past the listing. *)
Lemma feed_shape :
  ∃ st doc gens,
    main cfg w (start file) = (Resolved, st)
    ∧ forks_json st = Json doc
    ∧ doc = makeOutput w sel (List.map (preserve w) (hasArticle sel) ++ gens)
    ∧ List.map Fork.id gens = List.map Repo.id (batchToProcess sel).
Proof.
  destruct (main_output cfg w file repos Hrepos)
    as (st & gens & calls & Hmain & Hfile & _ & _ & Hall & _).
  eexists st, _, gens. split_and!; [done|exact Hfile|done|by apply generated_ids].
Qed.

Lemma feed_ids doc gens :
  doc = makeOutput w sel (List.map (preserve w) (hasArticle sel) ++ gens) →
  List.map Fork.id gens = List.map Repo.id (batchToProcess sel) →
  List.map Fork.id (forks doc)
  ≡ₚ List.map Repo.id (List.map fst (hasArticle sel) ++ batchToProcess sel).
Proof.
  intros -> Hgens. rewrite makeOutput_forks.
  change (List.map Fork.id (sort (byUpdatedAtDesc w) ?l))
    with (Fork.id <$> sort (byUpdatedAtDesc w) l).
  rewrite sort_Permutation.
  change (Fork.id <$> ?l) with (List.map Fork.id l).
  by rewrite !List.map_app, preserved_ids, Hgens.
Qed.

Lemma processed_sublist :
  List.map fst (hasArticle sel) ++ batchToProcess sel
  `sublist_of` List.map fst (hasArticle sel) ++ needsGeneration sel.
Proof.
  apply sublist_app; [done|]. unfold sel. rewrite select_batchToProcess.
  apply sublist_take.
Qed.

Lemma partition_Permutation :
  List.map fst (hasArticle sel) ++ needsGeneration sel ≡ₚ recentRepos sel.
Proof.
  unfold sel. rewrite select_hasArticle, select_needsGeneration, select_recentRepos.
  rewrite hasArticle_repos. generalize (take (reposToShow cfg) repos). intros l.
  induction l as [|r l IH]; [done|]. cbn [List.filter].
  destruct (hasGoodArticle _ r); cbn [negb app].
  - by rewrite IH.
  - by rewrite <- Permutation_middle, IH.
Qed.

End Feed.

Lemma kept_are_AI (w : World) (cfg : Config) (file : File) (repos : list Repo.t) :
  let sel := select cfg (loadExistingArticles file) repos in
  List.filter isAIArticle (List.map (preserve w) (hasArticle sel))
  = List.map (preserve w) (hasArticle sel).
Proof.
  intros sel.
  assert (∀ entry, entry ∈ hasArticle sel → isAIArticle (preserve w entry) = true) as Hgood.
  { intros [r e] Hin.
    destruct (hasArticle_entry cfg w file repos r e Hin) as (_ & _ & Hacc & _ & Hsum).
    unfold isAIArticle. by rewrite Hsum, isFallbackArticle_acceptable, Hacc. }
  induction (hasArticle sel) as [|entry l IH]; [done|].
  cbn [List.map List.filter]. rewrite Hgood by apply list_elem_of_here.
  rewrite IH; [done|]. intros e He. apply Hgood. by apply list_elem_of_further.
Qed.

(** X14.  The counts of the written feed add up: [totalRepos] is the
    number of records, kept plus processed; [aiGenerated + fallback] is
    that number and every kept record counts as AI-generated; every
    repository of the selected list is either in the feed or pending; and
    [complete] says that nothing is pending, which is the case exactly when
    the repositories needing generation fit in one batch. *)
Theorem progress_counts_add_up (cfg : Config) (w : World) (file : File)
    (repos : list Repo.t) :
  fetchRepos w = inr repos →
  let sel := select cfg (loadExistingArticles file) repos in
  ∃ st doc,
    main cfg w (start file) = (Resolved, st)
    ∧ forks_json st = Json doc
    ∧ totalRepos doc = length (forks doc)
    ∧ totalRepos doc = length (hasArticle sel) + length (batchToProcess sel)
    ∧ aiGenerated (progress doc) + fallback (progress doc) = totalRepos doc
    ∧ length (hasArticle sel) ≤ aiGenerated (progress doc)
    ∧ pending (progress doc) + length (batchToProcess sel) = length (needsGeneration sel)
    ∧ totalRepos doc + pending (progress doc) = length (recentRepos sel)
    ∧ (complete (progress doc) = true ↔ pending (progress doc) = 0)
    ∧ (complete (progress doc) = true ↔ length (needsGeneration sel) ≤ batchSize cfg).
Proof.
  intros Hrepos sel.
  destruct (feed_shape cfg w file repos Hrepos) as (st & doc & gens & Hmain & Hfile & -> & Hgens).
  fold sel in Hgens |- *.
  assert (length gens = length (batchToProcess sel)) as Hlen.
  { by rewrite <- (length_map Fork.id), Hgens, length_map. }
  assert (length (batchToProcess sel) = Nat.min (batchSize cfg) (length (needsGeneration sel)))
    as Hbatch.
  { subst sel. by rewrite select_batchToProcess, length_take. }
  pose proof (selection_lengths cfg file repos) as Hsel. fold sel in Hsel.
  set (records := List.map (preserve w) (hasArticle sel) ++ gens).
  assert (length (sort (byUpdatedAtDesc w) records)
          = length (hasArticle sel) + length (batchToProcess sel)) as Htotal.
  { rewrite sort_length. unfold records. by rewrite length_app, length_map, Hlen. }
  assert (length (List.filter isAIArticle (sort (byUpdatedAtDesc w) records))
          = length (hasArticle sel) + length (List.filter isAIArticle gens)) as Hai.
  { rewrite (List_filter_length_Permutation _ _ records) by apply sort_Permutation.
    unfold records. rewrite List.filter_app, length_app.
    pose proof (kept_are_AI w cfg file repos) as Hkept. cbn zeta in Hkept. fold sel in Hkept.
    by rewrite Hkept, length_map. }
  pose proof (List.filter_length_le isAIArticle gens) as Hle.
  exists st, (makeOutput w sel records).
  cbn [makeOutput totalRepos progress aiGenerated fallback pending complete forks].
  rewrite Hai, Htotal, Nat.eqb_eq.
  split_and!; try done; try lia.
Qed.

Lemma progress_counts_add_up_witness :
  fetchRepos offlineWorld = inr (selectRepos (sampleRepos 51))
  ∧ ∃ st doc,
      main CONFIG offlineWorld (start NoFile) = (Resolved, st)
      ∧ forks_json st = Json doc
      ∧ totalRepos doc + pending (progress doc) = length (recentRepos firstSelection).
Proof.
  split; [reflexivity|].
  destruct (progress_counts_add_up CONFIG offlineWorld NoFile (selectRepos (sampleRepos 51))
              eq_refl) as (st & doc & Hmain & Hfile & _ & _ & _ & _ & _ & Hall & _).
  exists st, doc. split_and!; [exact Hmain|exact Hfile|exact Hall].
Defined.

(** X15.  The records of the written feed are in descending order of
    the date value of their [updatedAt]. *)
Theorem feed_is_sorted (cfg : Config) (w : World) (file : File) (repos : list Repo.t) :
  fetchRepos w = inr repos →
  ∃ st doc,
    main cfg w (start file) = (Resolved, st)
    ∧ forks_json st = Json doc
    ∧ StronglySorted
        (fun a b => (dateValue w (Fork.updatedAt b) ≤ dateValue w (Fork.updatedAt a))%Z)
        (forks doc).
Proof.
  intros Hrepos.
  destruct (feed_shape cfg w file repos Hrepos) as (st & doc & gens & Hmain & Hfile & -> & _).
  eexists st, _. split_and!; [done|exact Hfile|].
  rewrite makeOutput_forks.
  apply (sort_sorted (fun f => dateValue w (Fork.updatedAt f))).
Qed.

Lemma feed_is_sorted_witness :
  fetchRepos keptWorld = inr (selectRepos (sampleRepos 2))
  ∧ ∃ st doc,
      main CONFIG keptWorld (start keptFile) = (Resolved, st)
      ∧ forks_json st = Json doc
      ∧ StronglySorted
          (fun a b => (dateValue keptWorld (Fork.updatedAt b)
                       ≤ dateValue keptWorld (Fork.updatedAt a))%Z)
          (forks doc).
Proof.
  split; [reflexivity|].
  apply (feed_is_sorted CONFIG keptWorld keptFile (selectRepos (sampleRepos 2))).
  reflexivity.
Defined.

Lemma NoDup_map_inj {A B} (g : A → B) (l : list A) (x y : A) :
  NoDup (List.map g l) → x ∈ l → y ∈ l → g x = g y → x = y.
Proof.
  induction l as [|z l IH]; cbn [List.map]; [by intros _ ?%elem_of_nil|].
  intros [Hz Hl]%NoDup_cons [->|Hx]%elem_of_cons [->|Hy]%elem_of_cons Heq; [done| | |by apply IH].
  - destruct Hz. rewrite Heq. by apply (list_elem_of_fmap_2 g).
  - destruct Hz. rewrite <- Heq. by apply (list_elem_of_fmap_2 g).
Qed.

Section FeedIds.
Context (cfg : Config) (w : World) (file : File) (repos : list Repo.t).

Let sel := select cfg (loadExistingArticles file) repos.

Lemma listed_NoDup :
  NoDup (List.map Repo.id (recentRepos sel)) →
  NoDup (List.map Repo.id
           (List.map fst (hasArticle sel) ++ batchToProcess sel
            ++ drop (batchSize cfg) (needsGeneration sel))).
Proof.
  intros Hnodup.
  assert (batchToProcess sel ++ drop (batchSize cfg) (needsGeneration sel)
          = needsGeneration sel) as ->.
  { unfold sel. by rewrite select_batchToProcess, take_drop. }
  pose proof (partition_Permutation cfg file repos) as Hp. fold sel in Hp.
  change (List.map Repo.id ?l) with (Repo.id <$> l) in *.
  by rewrite Hp.
Qed.

Lemma processed_NoDup :
  NoDup (List.map Repo.id (recentRepos sel)) →
  NoDup (List.map Repo.id (List.map fst (hasArticle sel) ++ batchToProcess sel)).
Proof.
  intros Hnodup%listed_NoDup. rewrite app_assoc, List.map_app in Hnodup.
  by apply NoDup_app in Hnodup as (? & _ & _).
Qed.

End FeedIds.

(** X16.  The written feed holds one record for every repository
    that is kept or in the batch, and no other: every record belongs to a
    repository of the selected list, so records of repositories that are
    no longer listed are dropped; and when the listed ids are distinct, a
    repository deferred to a later run has no record in the feed. *)
Theorem feed_records_are_listed (cfg : Config) (w : World) (file : File)
    (repos : list Repo.t) :
  fetchRepos w = inr repos →
  let sel := select cfg (loadExistingArticles file) repos in
  ∃ st doc,
    main cfg w (start file) = (Resolved, st)
    ∧ forks_json st = Json doc
    ∧ List.map Fork.id (forks doc)
      ≡ₚ List.map Repo.id (List.map fst (hasArticle sel) ++ batchToProcess sel)
    ∧ (∀ f, f ∈ forks doc →
         ∃ repo, repo ∈ recentRepos sel ∧ Fork.id f = Repo.id repo)
    ∧ (NoDup (List.map Repo.id (recentRepos sel)) →
       ∀ repo f, repo ∈ drop (batchSize cfg) (needsGeneration sel) →
                 f ∈ forks doc → Fork.id f ≠ Repo.id repo).
Proof.
  intros Hrepos sel.
  destruct (feed_shape cfg w file repos Hrepos)
    as (st & doc & gens & Hmain & Hfile & Hdoc & Hgens).
  pose proof (feed_ids cfg w file repos doc gens Hdoc Hgens) as Hids. fold sel in Hids.
  assert (∀ f, f ∈ forks doc →
            Fork.id f ∈ List.map Repo.id
                          (List.map fst (hasArticle sel) ++ batchToProcess sel)) as Hin.
  { intros f Hf. rewrite <- Hids. by apply (list_elem_of_fmap_2 Fork.id). }
  exists st, doc. split_and!; [done|done|done| |].
  - intros f Hf. apply Hin in Hf.
    apply list_elem_of_fmap in Hf as (repo & Hid & Hrepo). exists repo. split; [|done].
    pose proof (partition_Permutation cfg file repos) as Hp. fold sel in Hp.
    rewrite <- Hp.
    eapply elem_of_sublist; [exact Hrepo|apply processed_sublist].
  - intros Hnodup%listed_NoDup repo f Hrepo Hf Hid. fold sel in Hnodup.
    rewrite app_assoc, List.map_app in Hnodup.
    apply NoDup_app in Hnodup as (_ & Hdisjoint & _).
    apply (Hdisjoint (Fork.id f)); [by apply Hin|].
    rewrite Hid. by apply (list_elem_of_fmap_2 Repo.id).
Qed.

Lemma feed_records_are_listed_witness :
  fetchRepos offlineWorld = inr (selectRepos (sampleRepos 51))
  ∧ ∃ st doc,
      main CONFIG offlineWorld (start NoFile) = (Resolved, st)
      ∧ forks_json st = Json doc
      ∧ ∀ f, f ∈ forks doc →
          ∃ repo, repo ∈ recentRepos firstSelection ∧ Fork.id f = Repo.id repo.
Proof.
  split; [reflexivity|].
  destruct (feed_records_are_listed CONFIG offlineWorld NoFile (selectRepos (sampleRepos 51))
              eq_refl) as (st & doc & Hmain & Hfile & _ & Hlisted & _).
  exists st, doc. split_and!; [exact Hmain|exact Hfile|exact Hlisted].
Defined.

(** X17.  When the listed repositories have distinct ids, the ids of
    the written feed are distinct, and reading the feed back with
    [loadExistingArticles] returns each record under its id and nothing
    under any other id. *)
Theorem feed_reads_back (cfg : Config) (w : World) (file : File) (repos : list Repo.t) :
  fetchRepos w = inr repos →
  NoDup (List.map Repo.id (take (reposToShow cfg) repos)) →
  ∃ st doc,
    main cfg w (start file) = (Resolved, st)
    ∧ forks_json st = Json doc
    ∧ NoDup (List.map Fork.id (forks doc))
    ∧ (∀ f, f ∈ forks doc → loadExistingArticles (forks_json st) !! Fork.id f = Some f)
    ∧ (∀ k f, loadExistingArticles (forks_json st) !! k = Some f →
              f ∈ forks doc ∧ Fork.id f = k).
Proof.
  intros Hrepos Hnodup.
  destruct (feed_shape cfg w file repos Hrepos)
    as (st & doc & gens & Hmain & Hfile & Hdoc & Hgens).
  pose proof (feed_ids cfg w file repos doc gens Hdoc Hgens) as Hids.
  rewrite <- (select_recentRepos cfg (loadExistingArticles file)) in Hnodup.
  apply processed_NoDup in Hnodup.
  assert (NoDup (List.map Fork.id (forks doc))) as Hfeed.
  { change (List.map Fork.id ?l) with (Fork.id <$> l) in *.
    change (List.map Repo.id ?l) with (Repo.id <$> l) in *. by rewrite Hids. }
  exists st, doc. rewrite Hfile. split_and!; [done|done|done| |].
  - intros f Hf. destruct (loadExisting_is_Some doc (Fork.id f) f Hf eq_refl) as [f' Hf'].
    rewrite Hf'. f_equal.
    apply loadExisting_Some in Hf' as (d & [= <-] & Hin & Hid).
    by apply (NoDup_map_inj Fork.id (forks doc)).
  - intros k f Hf. by apply loadExisting_Some in Hf as (d & [= <-] & Hin & Hid).
Qed.

Lemma feed_reads_back_witness :
  fetchRepos keptWorld = inr (selectRepos (sampleRepos 2))
  ∧ NoDup (List.map Repo.id (take (reposToShow CONFIG) (selectRepos (sampleRepos 2))))
  ∧ ∃ st doc,
      main CONFIG keptWorld (start keptFile) = (Resolved, st)
      ∧ forks_json st = Json doc
      ∧ NoDup (List.map Fork.id (forks doc)).
Proof.
  assert (NoDup (List.map Repo.id
                   (take (reposToShow CONFIG) (selectRepos (sampleRepos 2))))) as Hnodup.
  { vm_compute. apply NoDup_cons. split; [|apply NoDup_singleton].
    intros Hin%list_elem_of_singleton. discriminate. }
  split_and!; [reflexivity|exact Hnodup|].
  destruct (feed_reads_back CONFIG keptWorld keptFile (selectRepos (sampleRepos 2))
              eq_refl Hnodup) as (st & doc & Hmain & Hfile & Hfeed & _).
  exists st, doc. split_and!; [exact Hmain|exact Hfile|exact Hfeed].
Defined.

Lemma List_filter_all {A} (f : A → bool) (l : list A) :
  (∀ x, x ∈ l → f x = true) → List.filter f l = l.
Proof.
  intros Hall. induction l as [|x l IH]; [done|]. cbn [List.filter].
  rewrite Hall by apply list_elem_of_here. f_equal. apply IH.
  intros y Hy. apply Hall. by apply list_elem_of_further.
Qed.

Lemma List_filter_none {A} (f : A → bool) (l : list A) :
  (∀ x, x ∈ l → f x = false) → List.filter f l = [].
Proof.
  intros Hall. induction l as [|x l IH]; [done|]. cbn [List.filter].
  rewrite Hall by apply list_elem_of_here. apply IH.
  intros y Hy. apply Hall. by apply list_elem_of_further.
Qed.

(** X18.  When every repository of the selected list already has a
    good article, a run sends no completion request and only refreshes the
    feed: it keeps one record per listed repository, reports all of them
    as AI-generated, none as fallback or pending, and marks the feed
    complete. *)
Theorem all_good_run_only_refreshes (cfg : Config) (w : World) (file : File)
    (repos : list Repo.t) :
  fetchRepos w = inr repos →
  (∀ repo, repo ∈ take (reposToShow cfg) repos →
           hasGoodArticle (loadExistingArticles file) repo = true) →
  let sel := select cfg (loadExistingArticles file) repos in
  ∃ st doc,
    main cfg w (start file) = (Resolved, st)
    ∧ forks_json st = Json doc
    ∧ trace st = [FileWrite doc]
    ∧ List.map fst (hasArticle sel) = take (reposToShow cfg) repos
    ∧ needsGeneration sel = []
    ∧ forks doc = sort (byUpdatedAtDesc w) (List.map (preserve w) (hasArticle sel))
    ∧ totalRepos doc = length (take (reposToShow cfg) repos)
    ∧ progress doc = {| aiGenerated := length (take (reposToShow cfg) repos);
                        fallback := 0; pending := 0; complete := true |}.
Proof.
  intros Hrepos Hgood sel.
  assert (needsGeneration sel = []) as Hneeds.
  { subst sel. rewrite select_needsGeneration. apply List_filter_none.
    intros r Hr. by rewrite Hgood. }
  assert (batchToProcess sel = []) as Hbatch.
  { subst sel. by rewrite (select_batchToProcess cfg), Hneeds, take_nil. }
  assert (List.map fst (hasArticle sel) = take (reposToShow cfg) repos) as Hhas.
  { subst sel. rewrite select_hasArticle, hasArticle_repos. by apply List_filter_all. }
  pose proof (main_resolved cfg w (start file) repos Hrepos) as Hmain.
  cbn zeta in Hmain. change (forks_json (start file)) with file in Hmain.
  fold sel in Hmain. rewrite Hbatch in Hmain. cbn [processBatch fst snd] in Hmain.
  assert (length (List.filter isAIArticle
                    (sort (byUpdatedAtDesc w) (List.map (preserve w) (hasArticle sel))))
          = length (take (reposToShow cfg) repos)) as Hai.
  { rewrite (List_filter_length_Permutation _ _ (List.map (preserve w) (hasArticle sel)))
      by apply sort_Permutation.
    pose proof (kept_are_AI w cfg file repos) as Hkept. cbn zeta in Hkept. fold sel in Hkept.
    by rewrite Hkept, length_map, <- Hhas, length_map. }
  eexists _, _. split_and!; [exact Hmain|done|done|done|done|done| |].
  - cbn [makeOutput totalRepos preserved acc_forks].
    by rewrite sort_length, length_map, <- Hhas, length_map.
  - cbn [makeOutput progress preserved acc_forks]. rewrite Hai, Hneeds, Hbatch.
    rewrite sort_length, length_map, <- Hhas, length_map. cbn [length].
    by rewrite Nat.sub_diag.
Qed.

Lemma all_good_run_only_refreshes_witness :
  fetchRepos (sampleWorld (Some "token") (sampleRepos 1) throttled)
  = inr (selectRepos (sampleRepos 1))
  ∧ ∃ st doc,
      main CONFIG (sampleWorld (Some "token") (sampleRepos 1) throttled) (start keptFile)
      = (Resolved, st)
      ∧ forks_json st = Json doc
      ∧ trace st = [FileWrite doc].
Proof.
  split; [reflexivity|].
  destruct (all_good_run_only_refreshes CONFIG
              (sampleWorld (Some "token") (sampleRepos 1) throttled) keptFile
              (selectRepos (sampleRepos 1)) eq_refl) as (st & doc & Hmain & Hfile & Htrace & _).
  { intros repo Hin. vm_compute in Hin.
    apply list_elem_of_singleton in Hin. rewrite Hin. vm_compute. reflexivity. }
  exists st, doc. split_and!; [exact Hmain|exact Hfile|exact Htrace].
Defined.

(** ** Two runs with a helpful endpoint *)

Lemma List_filter_andb {A} (f g : A → bool) (l : list A) :
  List.filter (fun x => f x && g x) l = List.filter g (List.filter f l).
Proof.
  induction l as [|x l IH]; [done|]. cbn [List.filter].
  destruct (f x); cbn [andb List.filter]; [|done]. by rewrite IH.
Qed.

Lemma filter_drop_by_key {A} (g : A → Z) (l : list A) : ∀ k,
  NoDup (List.map g l) →
  List.filter (fun x => negb (bool_decide (g x ∈ List.map g (take k l)))) l = drop k l.
Proof.
  induction l as [|x l IH]; intros k Hnodup.
  { by rewrite drop_nil. }
  cbn [List.map] in Hnodup. apply NoDup_cons in Hnodup as [Hx Hl].
  destruct k as [|k].
  { apply List_filter_all. intros y _. cbn [take List.map].
    rewrite bool_decide_eq_false_2; [done|apply not_elem_of_nil]. }
  cbn [take List.map List.filter drop].
  rewrite bool_decide_eq_true_2 by apply list_elem_of_here. cbn [negb].
  rewrite <- (IH k Hl). apply filter_ext_in. intros y Hy%list_elem_of_In.
  f_equal. apply bool_decide_ext. rewrite elem_of_cons. split; [|tauto].
  intros [Heq|?]; [|done]. destruct Hx. rewrite <- Heq. by apply (list_elem_of_fmap_2 g).
Qed.

Section Helpful.
Context (cfg : Config) (w : World).
Hypothesis Htok : JS.truthy (GITHUB_TOKEN w) = true.
Hypothesis Hwell : answersWell w.
Hypothesis Hmodels : available cfg ≠ [].

Lemma helpful_call repo readme fileTree st :
  (∀ m, rateLimited (modelRateLimits st) m = false) →
  ∃ article st',
    generateBlogArticle cfg w repo readme fileTree st = (Some article, st')
    ∧ JS.truthy (Some article) = true
    ∧ acceptable (Some article) = true
    ∧ modelRateLimits st' = modelRateLimits st.
Proof.
  intros Hfree. unfold generateBlogArticle. cbn [generateBlogArticle_rec].
  rewrite Htok. cbn [negb].
  destruct (getNextModel cfg st) as [[model|] st1] eqn:Hnext.
  - apply getNextModel_Some in Hnext as (_ & _ & _ & Hlim & _).
    match goal with |- context [completion w ?n ?r] =>
      destruct (Hwell n r) as (status & text & article & -> & Hok & Hlen & Hclean) end.
    rewrite Hok. cbn [negb].
    assert (JS.truthy (Some article) = true) as Htruthy.
    { destruct article; [simpl in Hlen; lia|done]. }
    rewrite Htruthy. destruct (Nat.ltb_spec 400 (String.length article)) as [_|?]; [|lia].
    cbn [andb]. exists article. eexists. split_and!; [done|done| |done].
    unfold acceptable. rewrite Hclean.
    by destruct (Nat.leb_spec 400 (String.length article)) as [_|?]; [|lia].
  - destruct (available cfg) as [|m models] eqn:Hav; [done|].
    pose proof (getNextModel_None_all_marked cfg st st1 Hnext m) as Hmarked.
    rewrite Hav in Hmarked. rewrite Hfree in Hmarked.
    by specialize (Hmarked (list_elem_of_here _ _)).
Qed.

Lemma helpful_batch (batch : list Repo.t) : ∀ i ls st,
  (∀ m, rateLimited (modelRateLimits st) m = false) →
  rateLimitHit ls = false →
  ∃ gens,
    acc_forks (processBatch cfg w i batch ls st).1 = acc_forks ls ++ gens
    ∧ Forall2 (fun repo f =>
                 ∃ j article,
                   f = generated w j repo (fetchRepoDetails w repo) article
                   ∧ acceptable (Some article) = true)
              batch gens.
Proof.
  induction batch as [|repo rest IH]; intros i ls st Hfree Hhit; cbn [processBatch].
  { exists []. split; [by rewrite app_nil_r|constructor]. }
  unfold tryGenerate. rewrite Hhit.
  destruct (helpful_call (fetchRepoDetails w repo) (fetchReadme w repo)
              (fetchRepoTree w repo) st Hfree)
    as (article & st' & -> & Htruthy & Hacc & Hlim).
  rewrite Htruthy.
  assert (JS.str_or (Some article) (generateFallbackSummary repo) = article) as ->.
  { by destruct article. }
  match goal with
  | |- context [processBatch cfg w (S i) rest ?l st'] =>
      destruct (IH (S i) l st') as (gens & Hforks & Hall)
  end.
  { intros m. by rewrite Hlim. }
  { done. }
  eexists (_ :: gens). split.
  - rewrite Hforks. cbn [acc_forks push]. by rewrite <- app_assoc.
  - constructor; [by eexists _, _|done].
Qed.

End Helpful.

Section HelpfulRuns.
Context (cfg : Config) (w : World) (file : File) (repos : list Repo.t).
Hypothesis Htok : JS.truthy (GITHUB_TOKEN w) = true.
Hypothesis Hwell : answersWell w.
Hypothesis Hmodels : available cfg ≠ [].
Hypothesis Hrepos : fetchRepos w = inr repos.

Let sel1 := select cfg (loadExistingArticles file) repos.

Lemma helpful_first_run :
  ∃ st gens,
    main cfg w (start file) = (Resolved, st)
    ∧ forks_json st
      = Json (makeOutput w sel1 (List.map (preserve w) (hasArticle sel1) ++ gens))
    ∧ Forall2 (fun repo f =>
                 ∃ j article,
                   f = generated w j repo (fetchRepoDetails w repo) article
                   ∧ acceptable (Some article) = true)
              (batchToProcess sel1) gens.
Proof.
  pose proof (main_resolved cfg w (start file) repos Hrepos) as Hmain.
  cbn zeta in Hmain. change (forks_json (start file)) with file in Hmain. fold sel1 in Hmain.
  destruct (helpful_batch cfg w Htok Hwell Hmodels (batchToProcess sel1) 0
              (preserved w (hasArticle sel1)) (start file)) as (gens & Hforks & Hall).
  { intros m. unfold rateLimited. cbn [modelRateLimits start]. by rewrite lookup_empty. }
  { done. }
  rewrite Hforks in Hmain. eexists _, gens. split_and!; [exact Hmain|done|done].
Qed.

Lemma helpful_classification gens r :
  Forall2 (fun repo f =>
             ∃ j article,
               f = generated w j repo (fetchRepoDetails w repo) article
               ∧ acceptable (Some article) = true)
          (batchToProcess sel1) gens →
  r ∈ take (reposToShow cfg) repos →
  hasGoodArticle
    (loadExistingArticles
       (Json (makeOutput w sel1 (List.map (preserve w) (hasArticle sel1) ++ gens)))) r
  = hasGoodArticle (loadExistingArticles file) r || inBatch (batchToProcess sel1) r.
Proof.
  intros Hall Hin. set (doc1 := makeOutput w sel1 _).
  assert (Forall2 (fun repo f =>
                     ∃ j article, f = generated w j repo (fetchRepoDetails w repo) article)
                  (batchToProcess sel1) gens) as Hshape.
  { eapply Forall2_impl; [exact Hall|]. intros repo f (j & a & -> & _). by eexists _, _. }
  assert (∀ f, f ∈ gens → acceptable (Fork.summary f) = true) as Hgens.
  { intros f Hf. apply list_elem_of_lookup in Hf as [i Hi].
    by destruct (Forall2_lookup_r _ _ _ _ _ Hall Hi) as (repo & _ & j & a & -> & Hacc). }
  assert (∀ f, f ∈ forks doc1 ↔ f ∈ List.map (preserve w) (hasArticle sel1) ++ gens)
    as Hforks.
  { intros f. unfold doc1. by rewrite makeOutput_forks, elem_of_sort. }
  destruct (hasGoodArticle (loadExistingArticles file) r) eqn:Hgood; cbn [orb].
  - unfold hasGoodArticle in Hgood.
    destruct (loadExistingArticles file !! Repo.id r) as [e|] eqn:He; [|done].
    destruct (good_records cfg w file repos r e gens Hin He Hgood Hshape) as [Hkept Hsame].
    destruct (loadExisting_all doc1 (Repo.id r)
                (fun f => Fork.summary f = Fork.summary e)) as (f & Hf & Hsum).
    + exists (preserve w (r, e)). split; [by apply Hforks|].
      cbn [preserve Fork.id]. by apply loadExisting_id in He.
    + intros f Hf. apply Hsame. by apply Hforks.
    + unfold hasGoodArticle. by rewrite Hf, Hsum.
  - assert (∀ f, f ∈ forks doc1 → Fork.id f = Repo.id r → f ∈ gens) as Hothers.
    { intros f Hf. apply (other_records cfg w file repos r gens f Hgood). by apply Hforks. }
    unfold inBatch. destruct (decide (Repo.id r ∈ List.map Repo.id (batchToProcess sel1)))
      as [Hbatch|Hbatch].
    + rewrite bool_decide_eq_true_2 by done.
      rewrite <- (generated_ids w _ _ Hshape) in Hbatch.
      apply list_elem_of_fmap in Hbatch as (f0 & Hid0 & Hf0).
      destruct (loadExisting_all doc1 (Repo.id r)
                  (fun f => acceptable (Fork.summary f) = true)) as (f & Hf & Hacc).
      * exists f0. split; [|done]. apply Hforks, elem_of_app. by right.
      * intros f Hf Hid. by apply Hgens, Hothers.
      * unfold hasGoodArticle. by rewrite Hf.
    + rewrite bool_decide_eq_false_2 by done.
      unfold hasGoodArticle. rewrite loadExisting_None; [done|].
      intros f Hf Hid. apply Hbatch. rewrite <- (generated_ids w _ _ Hshape), <- Hid.
      apply (list_elem_of_fmap_2 Fork.id). by apply Hothers.
Qed.

Lemma helpful_second_needs gens :
  Forall2 (fun repo f =>
             ∃ j article,
               f = generated w j repo (fetchRepoDetails w repo) article
               ∧ acceptable (Some article) = true)
          (batchToProcess sel1) gens →
  NoDup (List.map Repo.id (take (reposToShow cfg) repos)) →
  needsGeneration
    (select cfg
       (loadExistingArticles
          (Json (makeOutput w sel1 (List.map (preserve w) (hasArticle sel1) ++ gens))))
       repos)
  = drop (batchSize cfg) (needsGeneration sel1).
Proof.
  intros Hall Hnodup. rewrite select_needsGeneration.
  rewrite (filter_ext_in _
             (fun r => negb (hasGoodArticle (loadExistingArticles file) r)
                       && negb (inBatch (batchToProcess sel1) r))).
  2:{ intros r Hr%list_elem_of_In.
      by rewrite (helpful_classification gens r Hall Hr), negb_orb. }
  rewrite List_filter_andb.
  assert (List.filter (fun r => negb (hasGoodArticle (loadExistingArticles file) r))
            (take (reposToShow cfg) repos) = needsGeneration sel1) as ->.
  { unfold sel1. by rewrite select_needsGeneration. }
  assert (batchToProcess sel1 = take (batchSize cfg) (needsGeneration sel1)) as ->.
  { unfold sel1. apply select_batchToProcess. }
  unfold inBatch. apply filter_drop_by_key.
  apply (sublist_NoDup _ (List.map Repo.id (take (reposToShow cfg) repos))); [done|].
  unfold sel1. rewrite select_needsGeneration.
  apply (fmap_sublist Repo.id), List_filter_sublist.
Qed.

End HelpfulRuns.

(** X19.  With a token, a configured model and a completion endpoint
    that answers every request with an article passing the quality check,
    the queue advances when the listed ids are distinct: after one run the
    repositories still needing generation are exactly those the run
    deferred, so the second run's pending count is [N_needing - 2K], and
    the feed is complete after two runs when [N_needing <= 2K]. *)
Theorem helpful_runs_advance_queue (cfg : Config) (w : World) (file : File)
    (repos : list Repo.t) :
  JS.truthy (GITHUB_TOKEN w) = true →
  answersWell w →
  available cfg ≠ [] →
  fetchRepos w = inr repos →
  NoDup (List.map Repo.id (take (reposToShow cfg) repos)) →
  let sel1 := select cfg (loadExistingArticles file) repos in
  let first := runScript cfg w file in
  let sel2 := select cfg (loadExistingArticles (forks_json (final first))) repos in
  let second := runScript cfg w (forks_json (final first)) in
  ∃ doc1 doc2,
    documentOf first = Some doc1
    ∧ documentOf second = Some doc2
    ∧ pending (progress doc1) = length (needsGeneration sel1) - batchSize cfg
    ∧ needsGeneration sel2 = drop (batchSize cfg) (needsGeneration sel1)
    ∧ pending (progress doc2) = length (needsGeneration sel1) - 2 * batchSize cfg
    ∧ (length (needsGeneration sel1) ≤ 2 * batchSize cfg →
       complete (progress doc2) = true).
Proof.
  intros Htok Hwell Hmodels Hrepos Hnodup sel1 first sel2 second.
  destruct (helpful_first_run cfg w file repos Htok Hwell Hmodels Hrepos)
    as (st1 & gens & Hmain1 & Hfile1 & Hall).
  fold sel1 in Hfile1, Hall. set (doc1 := makeOutput w sel1 _) in Hfile1.
  assert (forks_json (final first) = Json doc1) as Hjson.
  { subst first. unfold runScript. by rewrite Hmain1. }
  assert (needsGeneration sel2 = drop (batchSize cfg) (needsGeneration sel1)) as Hneeds.
  { subst sel2. rewrite Hjson. by apply helpful_second_needs. }
  destruct (main_output cfg w (forks_json (final first)) repos Hrepos)
    as (st2 & gens2 & calls2 & Hmain2 & Hfile2 & _).
  fold sel2 in Hfile2. set (doc2 := makeOutput w sel2 _) in Hfile2.
  assert (length (batchToProcess sel1)
          = Nat.min (batchSize cfg) (length (needsGeneration sel1))) as Hlen1.
  { subst sel1. by rewrite (select_batchToProcess cfg), length_take. }
  assert (length (batchToProcess sel2)
          = Nat.min (batchSize cfg) (length (needsGeneration sel2))) as Hlen2.
  { subst sel2. by rewrite (select_batchToProcess cfg), length_take. }
  assert (pending (progress doc2) = length (needsGeneration sel1) - 2 * batchSize cfg)
    as Hpending.
  { unfold doc2. rewrite makeOutput_pending, Hlen2, Hneeds, length_drop. lia. }
  exists doc1, doc2. split_and!.
  - unfold documentOf. by rewrite Hjson.
  - subst second. unfold documentOf, runScript. rewrite Hmain2. cbn [final]. by rewrite Hfile2.
  - unfold doc1. rewrite makeOutput_pending. fold sel1. rewrite Hlen1. lia.
  - done.
  - done.
  - intros Hfit. change (complete (progress doc2)) with (pending (progress doc2) =? 0).
    rewrite Hpending. apply Nat.eqb_eq. lia.
Qed.

Lemma helpful_runs_advance_queue_witness :
  JS.truthy (GITHUB_TOKEN helpfulWorld) = true
  ∧ answersWell helpfulWorld
  ∧ fetchRepos helpfulWorld = inr (selectRepos (sampleRepos 3))
  ∧ ∃ doc1 doc2,
      documentOf (runScript smallBatch helpfulWorld NoFile) = Some doc1
      ∧ documentOf (runScript smallBatch helpfulWorld
                      (forks_json (final (runScript smallBatch helpfulWorld NoFile))))
        = Some doc2
      ∧ pending (progress doc1) = 1
      ∧ complete (progress doc2) = true.
Proof.
  assert (answersWell helpfulWorld) as Hwell.
  { intros n req. exists 200%Z, "", article401.
    split_and!; [reflexivity|reflexivity|vm_compute; lia|vm_compute; reflexivity]. }
  assert (NoDup (List.map Repo.id
                   (take (reposToShow smallBatch) (selectRepos (sampleRepos 3))))) as Hnodup.
  { vm_compute. repeat (apply NoDup_cons; split; [|]); try apply NoDup_nil_2;
      intros Hin; repeat (apply elem_of_cons in Hin as [Hin|Hin]; [discriminate|]);
      by apply elem_of_nil in Hin. }
  split_and!; [reflexivity|exact Hwell|reflexivity|].
  destruct (helpful_runs_advance_queue smallBatch helpfulWorld NoFile
              (selectRepos (sampleRepos 3)) eq_refl Hwell ltac:(discriminate) eq_refl Hnodup)
    as (doc1 & doc2 & Hdoc1 & Hdoc2 & Hp1 & _ & _ & Hcomplete).
  exists doc1, doc2. split_and!; [exact Hdoc1|exact Hdoc2| |].
  - rewrite Hp1. vm_compute. reflexivity.
  - apply Hcomplete. vm_compute. lia.
Defined.

(** ** Generated summaries *)

Lemma generateFallbackSummary_nonempty (repo : Repo.t) :
  0 < String.length (generateFallbackSummary repo).
Proof.
  unfold generateFallbackSummary, fallback_long, fallback_short.
  destruct (100 <? _); rewrite !string_length_app; cbn [String.length]; lia.
Qed.

Lemma processBatch_summaries (cfg : Config) (w : World) (batch : list Repo.t) :
  ∀ i ls st,
    ∃ gens,
      acc_forks (processBatch cfg w i batch ls st).1 = acc_forks ls ++ gens
      ∧ Forall2 (fun repo f =>
                   Fork.id f = Repo.id repo
                   ∧ ∃ s, Fork.summary f = Some s
                          ∧ 0 < String.length s
                          ∧ (s = generateFallbackSummary repo ∨ 400 < String.length s))
                batch gens.
Proof.
  induction batch as [|repo rest IH]; intros i ls st; cbn [processBatch].
  { exists []. split; [by rewrite app_nil_r|constructor]. }
  destruct (tryGenerate_spec cfg w (fetchRepoDetails w repo) (fetchReadme w repo)
              (fetchRepoTree w repo) ls st)
    as (article & ls1 & st1 & -> & Hacc & _ & _ & Harticle).
  set (s := JS.str_or article (generateFallbackSummary repo)).
  assert (0 < String.length s
          ∧ (s = generateFallbackSummary repo ∨ 400 < String.length s)) as [Hpos Hs].
  { pose proof (generateFallbackSummary_nonempty repo) as Hfb. subst s.
    destruct article as [[|c a]|]; cbn [JS.str_or]; [by auto|cbn [String.length]|by auto].
    split; [lia|]. destruct Harticle as [?|(st0 & st0' & Hgen)]; [done|].
    destruct (generateBlogArticle_spec cfg w (fetchRepoDetails w repo) (fetchReadme w repo)
                (fetchRepoTree w repo) st0)
      as (a' & st'' & _ & Hgen' & _ & _ & Habsent & Hpresent).
    rewrite Hgen in Hgen'. simplify_eq.
    destruct (JS.truthy (GITHUB_TOKEN w)) eqn:Htok.
    - right. by destruct (Hpresent eq_refl _ eq_refl) as [? _].
    - left. destruct (Habsent eq_refl) as [[= ->] _].
      by rewrite generateFallbackSummary_details. }
  destruct (IH (S i) (push (generated w i repo (fetchRepoDetails w repo) s) ls1) st1)
    as (gens & Hforks & Hall).
  eexists (_ :: gens). split.
  - rewrite Hforks. cbn [acc_forks push]. by rewrite Hacc, <- app_assoc.
  - constructor; [|done]. split; [done|]. by exists s.
Qed.

(** X20.  Whatever the services answer, every record a run generates
    carries a non-empty article: the fallback text of its repository,
    which is never empty, or a completion of more than 400 characters. *)
Theorem generated_records_have_articles (cfg : Config) (w : World) (file : File)
    (repos : list Repo.t) :
  fetchRepos w = inr repos →
  let sel := select cfg (loadExistingArticles file) repos in
  ∃ st doc gens,
    main cfg w (start file) = (Resolved, st)
    ∧ forks_json st = Json doc
    ∧ forks doc ≡ₚ List.map (preserve w) (hasArticle sel) ++ gens
    ∧ Forall2 (fun repo f =>
                 Fork.id f = Repo.id repo
                 ∧ ∃ s, Fork.summary f = Some s
                        ∧ 0 < String.length s
                        ∧ (s = generateFallbackSummary repo ∨ 400 < String.length s))
              (batchToProcess sel) gens.
Proof.
  intros Hrepos sel.
  pose proof (main_resolved cfg w (start file) repos Hrepos) as Hmain.
  cbn zeta in Hmain. change (forks_json (start file)) with file in Hmain. fold sel in Hmain.
  destruct (processBatch_summaries cfg w (batchToProcess sel) 0
              (preserved w (hasArticle sel)) (start file)) as (gens & Hforks & Hall).
  rewrite Hforks in Hmain. cbn [preserved acc_forks] in Hmain.
  eexists _, _, gens. split_and!; [exact Hmain|done| |done].
  rewrite makeOutput_forks. apply sort_Permutation.
Qed.

Lemma generated_records_have_articles_witness :
  fetchRepos helpfulWorld = inr (selectRepos (sampleRepos 3))
  ∧ ∃ st doc,
      main smallBatch helpfulWorld (start NoFile) = (Resolved, st)
      ∧ forks_json st = Json doc.
Proof.
  split; [reflexivity|].
  destruct (generated_records_have_articles smallBatch helpfulWorld NoFile
              (selectRepos (sampleRepos 3)) eq_refl) as (st & doc & gens & Hmain & Hfile & _).
  exists st, doc. split; [exact Hmain|exact Hfile].
Defined.

(** ** The single-pass script *)

Lemma legacy_fallback_nonempty (random : Legacy.Choice) (repo : Repo.t) :
  0 < String.length (Legacy.generateFallbackSummary random repo).
Proof.
  unfold Legacy.generateFallbackSummary.
  destruct (Nat.ltb_spec 50 (String.length (JS.str_or (Repo.description repo) "")));
    [lia|].
  destruct random; cbn [Legacy.index Legacy.templates lookup list_lookup default];
    unfold id; rewrite !string_length_app; cbn [String.length]; lia.
Qed.

Lemma legacy_summary_cases (w : World) (random : Legacy.Choice) (repo : Repo.t)
    (st : ProcState) :
  let req := {| req_model := "gpt-4o-mini"; req_repo := repo;
                req_readme := None; req_fileTree := [] |} in
  (JS.truthy (GITHUB_TOKEN w) = false
   ∧ Legacy.generateBlogSummary w random repo st
     = (Legacy.generateFallbackSummary random repo, st))
  ∨ (JS.truthy (GITHUB_TOKEN w) = true
     ∧ Legacy.generateBlogSummary w random repo st
       = (Legacy.generateFallbackSummary random repo, emit (CompletionCall req) st))
  ∨ (JS.truthy (GITHUB_TOKEN w) = true
     ∧ ∃ summary status text,
         Legacy.generateBlogSummary w random repo st
         = (summary, emit (CompletionCall req) st)
         ∧ completion w (completionCalls st) req = Http status text (Some summary)
         ∧ response_ok status = true
         ∧ 20 < String.length summary).
Proof.
  intros req. unfold Legacy.generateBlogSummary. fold req.
  destruct (JS.truthy (GITHUB_TOKEN w)); cbn [negb]; [|by left].
  right.
  destruct (completion w (completionCalls st) req) as [|status text content] eqn:Hresp;
    [by left|].
  destruct (response_ok status) eqn:Hok; cbn [negb]; [|by left].
  destruct content as [summary|]; [|by left].
  destruct (JS.truthy (Some summary) && (20 <? String.length summary)) eqn:Hlen; [|by left].
  apply andb_true_iff in Hlen as [_ Hlen%Nat.ltb_lt].
  right. split; [done|]. by exists summary, status, text.
Qed.

Lemma legacy_summary_effects (w : World) (random : Legacy.Choice) (repo : Repo.t)
    (st : ProcState) :
  0 < String.length (Legacy.generateBlogSummary w random repo st).1
  ∧ extends st (Legacy.generateBlogSummary w random repo st).2
  ∧ completionCalls (Legacy.generateBlogSummary w random repo st).2
    ≤ S (completionCalls st)
  ∧ (JS.truthy (GITHUB_TOKEN w) = false →
       Legacy.generateBlogSummary w random repo st
       = (Legacy.generateFallbackSummary random repo, st)).
Proof.
  pose proof (legacy_fallback_nonempty random repo) as Hfb.
  destruct (legacy_summary_cases w random repo st)
    as [[Htok ->]|[[Htok ->]|[Htok (summary & status & text & -> & _ & _ & Hlen)]]];
    cbn [fst snd]; rewrite ?completionCalls_emit.
  - split_and!; [done|apply extends_refl|lia|done].
  - split_and!; [done|apply extends_emit|lia|congruence].
  - split_and!; [lia|apply extends_emit|lia|congruence].
Qed.

(** X21.  [generateBlogSummary] always yields a non-empty summary and
    sends at most one request: without a token it returns the fallback
    text and sends none; with a token the summary is the content of a
    success answer to that request, longer than 20 characters, or else the
    fallback text. *)
Theorem legacy_summary_never_missing (w : World) (random : Legacy.Choice)
    (repo : Repo.t) (st : ProcState) :
  let r := Legacy.generateBlogSummary w random repo st in
  0 < String.length r.1
  ∧ extends st r.2
  ∧ completionCalls r.2 ≤ S (completionCalls st)
  ∧ (JS.truthy (GITHUB_TOKEN w) = false →
       r = (Legacy.generateFallbackSummary random repo, st))
  ∧ (r.1 = Legacy.generateFallbackSummary random repo
     ∨ (20 < String.length r.1
        ∧ ∃ req status text,
            req_repo req = repo
            ∧ completion w (completionCalls st) req = Http status text (Some r.1)
            ∧ response_ok status = true)).
Proof.
  intros r. subst r.
  destruct (legacy_summary_effects w random repo st) as (Hpos & Hext & Hcalls & Habsent).
  split_and!; [done|done|done|done|].
  destruct (legacy_summary_cases w random repo st)
    as [[_ ->]|[[_ ->]|[_ (summary & status & text & -> & Hresp & Hok & Hlen)]]];
    cbn [fst]; [by left|by left|].
  right. split; [done|]. eexists _, status, text.
  split; [|split; [exact Hresp|exact Hok]]. done.
Qed.

Lemma legacy_summary_never_missing_witness :
  JS.truthy (GITHUB_TOKEN (sampleWorld None [] unreachable)) = false
  ∧ Legacy.generateBlogSummary (sampleWorld None [] unreachable) Legacy.second_template
      (sampleRepo 1) (start NoFile)
    = (Legacy.generateFallbackSummary Legacy.second_template (sampleRepo 1), start NoFile).
Proof.
  split; [reflexivity|].
  apply (legacy_summary_never_missing (sampleWorld None [] unreachable)
           Legacy.second_template (sampleRepo 1) (start NoFile)).
  reflexivity.
Defined.

Lemma summarize_spec (w : World) (random : nat → Legacy.Choice)
    (recentForks : list Repo.t) : ∀ i acc st,
  ∃ records,
    (LegacyMain.summarize w random i recentForks acc st).1 = acc ++ records
    ∧ List.map Fork.id records = List.map Repo.id recentForks
    ∧ Forall (fun f => ∃ s, Fork.summary f = Some s ∧ 0 < String.length s) records
    ∧ extends st (LegacyMain.summarize w random i recentForks acc st).2
    ∧ completionCalls (LegacyMain.summarize w random i recentForks acc st).2
      ≤ completionCalls st + length recentForks
    ∧ (JS.truthy (GITHUB_TOKEN w) = false →
         (LegacyMain.summarize w random i recentForks acc st).2 = st).
Proof.
  induction recentForks as [|repo rest IH]; intros i acc st; cbn [LegacyMain.summarize].
  { exists []. split_and!; [by rewrite app_nil_r|done|constructor|apply extends_refl|
                           simpl; lia|done]. }
  pose proof (legacy_summary_effects w (random i) (fetchRepoDetails w repo) st)
    as (Hpos & Hext & Hcalls & Habsent).
  destruct (Legacy.generateBlogSummary w (random i) (fetchRepoDetails w repo) st)
    as [summary st1]. cbn [fst snd] in *.
  destruct (IH (S i)
              (acc ++ [LegacyMain.record w i repo (fetchRepoDetails w repo) summary]) st1)
    as (records & Hrecords & Hids & Hall & Hext' & Hcalls' & Habsent').
  eexists (_ :: records). split_and!.
  - rewrite Hrecords. by rewrite <- app_assoc.
  - cbn [List.map]. by rewrite Hids.
  - constructor; [by exists summary|done].
  - by eapply extends_trans.
  - cbn [length]. lia.
  - intros Htok. rewrite (Habsent' Htok). specialize (Habsent Htok). by simplify_eq.
Qed.

(** X22.  [main] of the single-pass script either rejects with the
    error of the listing, leaving the state as it is, or hands to the
    write a document with one record per repository for the first nine
    repositories of the listing, in the order of the listing, each with a
    non-empty summary; it sends at most one completion request per record,
    and none without a token. *)
Theorem legacy_main_summarizes_first_nine (w : World) (random : nat → Legacy.Choice)
    (st : ProcState) :
  match LegacyMain.fetchRepos w with
  | inl err => LegacyMain.main w random st = (inl err, st)
  | inr repos =>
      ∃ doc st',
        LegacyMain.main w random st = (inr doc, st')
        ∧ List.map Fork.id (LegacyMain.forks doc) = List.map Repo.id (take 9 repos)
        ∧ length (LegacyMain.forks doc) = Nat.min 9 (length repos)
        ∧ Forall (fun f => ∃ s, Fork.summary f = Some s ∧ 0 < String.length s)
                 (LegacyMain.forks doc)
        ∧ extends st st'
        ∧ completionCalls st' ≤ completionCalls st + 9
        ∧ (JS.truthy (GITHUB_TOKEN w) = false → st' = st)
  end.
Proof.
  unfold LegacyMain.main. destruct (LegacyMain.fetchRepos w) as [err|repos]; [done|].
  destruct (summarize_spec w random (take LegacyMain.reposToShow repos) 0 [] st)
    as (records & Hrecords & Hids & Hall & Hext & Hcalls & Habsent).
  destruct (LegacyMain.summarize w random 0 (take LegacyMain.reposToShow repos) [] st)
    as [forks st']. cbn [fst snd app] in *. subst forks.
  change LegacyMain.reposToShow with 9 in *.
  eexists _, st'. cbn [LegacyMain.forks].
  split_and!; [done|exact Hids| |exact Hall|exact Hext| |exact Habsent].
  - cbn [LegacyMain.forks].
    by rewrite <- (length_map Fork.id), Hids, length_map, length_take.
  - rewrite length_take in Hcalls. lia.
Qed.

(** X23.  Unless the first page of the listing is full (a success
    with at least 100 entries), the lister of the single-pass script and
    the paginating lister of the incremental generator return the same
    result: the same error, or the same filtered, tagged and sorted
    repositories. *)
Theorem listers_agree_below_one_page (w : World) :
  (∀ p, head (listPages w) = Some p → fullPage p = false) →
  LegacyMain.fetchRepos w = fetchRepos w.
Proof.
  unfold LegacyMain.fetchRepos, fetchRepos. intros Hshort.
  destruct (listPages w) as [|[|status repos] rest]; cbn [head fetchPages]; [done|done|].
  specialize (Hshort _ eq_refl). cbn [fullPage] in Hshort.
  destruct (response_ok status); cbn [negb andb] in *; [|done].
  apply Nat.leb_gt in Hshort.
  destruct (Nat.eqb_spec (length repos) 0) as [Hz|_].
  { by destruct repos. }
  destruct (Nat.ltb_spec (length repos) 100) as [_|?]; [|lia].
  cbn [app]. unfold selectRepos, keepRepo. by rewrite List_filter_andb.
Qed.

Lemma listers_agree_below_one_page_witness :
  LegacyMain.fetchRepos (sampleWorld None mixedRepos unreachable)
  = inr [tagType (sampleRepo 1); tagType (sampleRepo 2)].
Proof.
  rewrite (listers_agree_below_one_page (sampleWorld None mixedRepos unreachable)).
  - reflexivity.
  - intros p [= <-]. reflexivity.
Defined.

(** ** The image keyword table *)

Lemma firstKeyword_spec (text : string) (entries : list (string * string)) :
  (ForksFeed.firstKeyword text entries = "technology,code"
   ∧ ∀ topic keywords, (topic, keywords) ∈ entries → JS.includes text topic = false)
  ∨ ∃ before topic keywords after,
      entries = before ++ (topic, keywords) :: after
      ∧ JS.includes text topic = true
      ∧ ForksFeed.firstKeyword text entries = keywords
      ∧ ∀ t k, (t, k) ∈ before → JS.includes text t = false.
Proof.
  induction entries as [|[topic keywords] entries IH]; cbn [ForksFeed.firstKeyword].
  { left. split; [done|]. by intros t k ?%elem_of_nil. }
  destruct (JS.includes text topic) eqn:Hinc.
  - right. exists [], topic, keywords, entries. split_and!; [done|done|done|].
    by intros t k ?%elem_of_nil.
  - destruct IH as [[Hdef Hnone]|(before & t & k & after & -> & Ht & Hres & Hbefore)].
    + left. split; [done|]. intros t k [[= -> ->]|Hin]%elem_of_cons; [done|by eapply Hnone].
    + right. exists ((topic, keywords) :: before), t, k, after.
      split_and!; [done|done|done|].
      intros t' k' [[= -> ->]|Hin]%elem_of_cons; [done|by eapply Hbefore].
Qed.

(** X24.  [getImageKeyword] returns the keywords of the first entry
    of the table, in the order it is written, whose topic occurs in the
    lower-cased name, description and topics of the repository; it falls
    back to ['technology,code'] exactly when no topic occurs.  Since ['ai']
    is the first entry, every repository whose name contains it, in any
    case and anywhere, gets the keywords of that entry. *)
Theorem image_keyword_is_first_match (repo : Repo.t) :
  (ForksFeed.getImageKeyword repo = "technology,code"
   ↔ ∀ topic keywords, (topic, keywords) ∈ ForksFeed.topicKeywords →
       JS.includes (ForksFeed.keywordText repo) topic = false)
  ∧ (∀ before topic keywords after,
       ForksFeed.topicKeywords = before ++ (topic, keywords) :: after →
       JS.includes (ForksFeed.keywordText repo) topic = true →
       (∀ t k, (t, k) ∈ before → JS.includes (ForksFeed.keywordText repo) t = false) →
       ForksFeed.getImageKeyword repo = keywords)
  ∧ (JS.includes (JS.toLowerCase (Repo.name repo)) "ai" = true →
     ForksFeed.getImageKeyword repo = "artificial-intelligence,neural").
Proof.
  unfold ForksFeed.getImageKeyword. split_and!.
  - split.
    + intros Hdef.
      destruct (firstKeyword_spec (ForksFeed.keywordText repo) ForksFeed.topicKeywords)
        as [[_ Hnone]|(before & t & k & after & Heq & _ & Hres & _)]; [done|].
      rewrite Hdef in Hres. subst k.
      assert (Forall (fun entry => entry.2 ≠ "technology,code") ForksFeed.topicKeywords)
        as Hvalues by (vm_compute; repeat constructor; discriminate).
      rewrite Heq in Hvalues. apply Forall_app in Hvalues as [_ Hvalues].
      by apply Forall_cons in Hvalues as [? _].
    + intros Hnone.
      destruct (firstKeyword_spec (ForksFeed.keywordText repo) ForksFeed.topicKeywords)
        as [[Hdef _]|(before & t & k & after & Heq & Ht & _ & _)]; [done|].
      rewrite (Hnone t k) in Ht; [done|]. rewrite Heq. apply elem_of_app. right.
      apply list_elem_of_here.
  - intros before topic keywords after Heq Hinc Hbefore. rewrite Heq.
    clear Heq. induction before as [|[t k] before IH]; cbn [app ForksFeed.firstKeyword].
    + by rewrite Hinc.
    + rewrite (Hbefore t k) by apply list_elem_of_here. apply IH.
      intros t' k' Hin. apply (Hbefore t' k'). by apply list_elem_of_further.
  - intros Hname. cbn [ForksFeed.topicKeywords ForksFeed.firstKeyword].
    unfold ForksFeed.keywordText. rewrite toLowerCase_app.
    by rewrite (includes_app_l _ _ _ Hname).
Qed.

Lemma image_keyword_is_first_match_witness :
  JS.includes (JS.toLowerCase "mountain-bike-tracker") "ai" = true
  ∧ ForksFeed.getImageKeyword (tagType archivedRepo) = "technology,code".
Proof.
  split; [reflexivity|].
  apply (image_keyword_is_first_match (tagType archivedRepo)).
  intros topic keywords Hin. vm_compute in Hin.
  repeat (apply elem_of_cons in Hin as [Hin|Hin];
          [injection Hin as -> _; vm_compute; reflexivity|]).
  by apply elem_of_nil in Hin.
Defined.
